(** * Cookie codec of the [http] wrapper package (cookie.go)

    A shallow embedding of the cookie helpers of [cookie.go]: the
    request-cookie reader [readCookies], the value parser and the
    sanitizers used on the write side, the domain validator, and the
    exported [ParseSetCookie] wrapper.

    Go strings are byte sequences: they are modelled as [list ascii]
    (one [ascii] per byte), indexing is [nth], slicing is [take]/[drop],
    and [len] is [length]. *)

From Stdlib Require Import Ascii String List Bool NArith ZArith Lia.
From stdpp Require Import base decidable option list gmap strings.
Import ListNotations.

Local Open Scope char_scope.
Local Open Scope list_scope.

(** ** Bytes and strings *)

Abbreviation gostring := (list ascii).

(** A string literal of the source, as its bytes. *)
Definition str (s : string) : gostring := list_ascii_of_string s.

(** Numeric value of a byte, for the source's range comparisons. *)
Definition code (b : ascii) : N := N_of_ascii b.

Definition DQUOTE : ascii := "034".
Definition TAB : ascii := "009".
Definition LF : ascii := "010".
Definition CR : ascii := "013".

(** ** Standard-library helpers the package calls

    These belong to Go's standard library ([strings], [net/textproto]);
    they are modelled from their documented behaviour. *)

Module strings.

(** [strings.Cut(s, sep)] for a one-byte separator, the only way the
    package calls it: the text before and after the first [sep], and
    whether [sep] occurs.  Without [sep] the result is [(s, "", false)]. *)
Fixpoint Cut (s : gostring) (sep : ascii) : gostring * gostring * bool :=
  match s with
  | [] => ([], [], false)
  | c :: s' =>
      if Ascii.eqb c sep then ([], s', true)
      else let '(before, after, found) := Cut s' sep in
           (c :: before, after, found)
  end.

(** [strings.Count(s, sep)] for a one-byte separator. *)
Definition Count (s : gostring) (sep : ascii) : nat :=
  length (List.filter (Ascii.eqb sep) s).

(** [strings.Contains(s, sep)] for a one-byte [sep]. *)
Definition Contains (s : gostring) (sep : ascii) : bool :=
  existsb (Ascii.eqb sep) s.

(** [strings.ContainsAny(s, chars)]: some byte of [s] is in [chars]
    (the package passes ASCII [chars] only). *)
Definition ContainsAny (s chars : gostring) : bool :=
  existsb (fun b => existsb (Ascii.eqb b) chars) s.

(** [strings.IndexFunc(s, f)]: index of the first position satisfying
    [f], or -1.  The source iterates over runes; the predicate the
    package passes ([isNotToken]) holds of every rune outside ASCII,
    and a byte >= 0x80 always starts such a rune (or an invalid
    sequence, decoded as U+FFFD), so iterating over bytes with a
    predicate that holds of every byte >= 0x80 finds the same index. *)
Fixpoint IndexFunc (s : gostring) (f : ascii -> bool) : Z :=
  match s with
  | [] => (-1)%Z
  | c :: s' =>
      if f c then 0%Z
      else let i := IndexFunc s' f in
           if (i <? 0)%Z then (-1)%Z else (i + 1)%Z
  end.

(** [strings.HasPrefix(s, prefix)]. *)
Fixpoint HasPrefix (s prefix : gostring) {struct prefix} : bool :=
  match prefix, s with
  | [], _ => true
  | p :: prefix', c :: s' => Ascii.eqb c p && HasPrefix s' prefix'
  | _ :: _, [] => false
  end.

(** [strings.LastIndex(s, substr)] for a one-byte [substr], the only way
    the package calls it: the index of the last occurrence, or -1. *)
Fixpoint LastIndex (s : gostring) (sep : ascii) : Z :=
  match s with
  | [] => (-1)%Z
  | c :: s' =>
      let r := LastIndex s' sep in
      if (0 <=? r)%Z then (r + 1)%Z
      else if Ascii.eqb c sep then 0%Z else (-1)%Z
  end.

End strings.

Module strconv.

(** Digit loop of [strconv.ParseUint] for base 10 and 64 bits: [None]
    where the source returns an error (a byte that is not a decimal
    digit, or a value beyond 2^64 - 1). *)
Fixpoint ParseUintLoop (s : gostring) (n : N) : option N :=
  match s with
  | [] => Some n
  | c :: s' =>
      if (code "0" <=? code c)%N && (code c <=? code "9")%N then
        let d := (code c - code "0")%N in
        if (0xffffffffffffffff / 10 + 1 <=? n)%N then None
        else
          let n1 := (n * 10 + d)%N in
          if (0xffffffffffffffff <? n1)%N then None
          else ParseUintLoop s' n1
      else None
  end.

(** [strconv.ParseUint(s, 10, 0)]: the empty string is a syntax error. *)
Definition ParseUint (s : gostring) : option N :=
  if bool_decide (s = []) then None else ParseUintLoop s 0.

End strconv.

Module textproto.

Definition isASCIISpace (b : ascii) : bool :=
  Ascii.eqb b " " || Ascii.eqb b TAB || Ascii.eqb b LF || Ascii.eqb b CR.

(** First loop of [TrimString]: drop leading ASCII space. *)
Fixpoint trimLeft (s : gostring) : gostring :=
  match s with
  | c :: s' => if isASCIISpace c then trimLeft s' else s
  | [] => []
  end.

(** Second loop of [TrimString]: drop trailing ASCII space. *)
Definition trimRight (s : gostring) : gostring :=
  rev (trimLeft (rev s)).

(** [textproto.TrimString]: s without leading and trailing ASCII space. *)
Definition TrimString (s : gostring) : gostring :=
  trimRight (trimLeft s).

End textproto.

(** ** Data model *)

(** [Cookie] aliases the library's [http.Cookie].  The fields below are
    the ones [readCookies] writes; it leaves every other field of the
    struct at its zero value. *)
Record Cookie : Type := mkCookie {
  Name : gostring;
  Value : gostring;
  Quoted : bool
}.

(** A Go slice value is either [nil] or a (possibly empty) sequence. *)
Inductive slice (A : Type) : Type :=
| nil_slice
| mk_slice (elems : list A).
Arguments nil_slice {A}.
Arguments mk_slice {A} elems.

Definition elems_of {A} (s : slice A) : list A :=
  match s with nil_slice => [] | mk_slice l => l end.

(** [Header] is [map[string][]string]; indexing a missing key yields the
    zero value, a slice of length 0. *)
Abbreviation Header := (gmap string (list gostring)).

Definition header_get (h : Header) (key : string) : list gostring :=
  default [] (h !! key).

(** The package's error values. *)
Inductive error : Type :=
| errBlankCookie
| errEqualNotFoundInCookie
| errInvalidCookieName
| errInvalidCookieValue.

(** ** ParseSetCookie

    The body of [ParseSetCookie] is a call to [ParseSetCookie] itself on
    the same argument.  Each call consumes one unit of [fuel]; [None]
    means the evaluation has not returned within [fuel] nested calls. *)
Fixpoint ParseSetCookie (fuel : nat) (line : gostring)
  : option (option Cookie * option error) :=
  match fuel with
  | O => None
  | S fuel' => ParseSetCookie fuel' line
  end.

(** [readSetCookies]: every "Set-Cookie" line goes through
    [ParseSetCookie]; the pointer it returns is appended when the error
    is nil.  The elements are pointers ([None] is the nil pointer). *)
Fixpoint readSetCookiesLoop (fuel : nat) (lines : list gostring)
    (cookies : list (option Cookie)) : option (list (option Cookie)) :=
  match lines with
  | [] => Some cookies
  | line :: rest =>
      match ParseSetCookie fuel line with
      | None => None
      | Some (cookie, None) => readSetCookiesLoop fuel rest (cookies ++ [cookie])
      | Some (_, Some _) => readSetCookiesLoop fuel rest cookies
      end
  end.

Definition readSetCookies (fuel : nat) (h : Header)
  : option (slice (option Cookie)) :=
  let cookieCount := length (header_get h "Set-Cookie") in
  if Nat.eqb cookieCount 0 then Some (mk_slice [])
  else mk_slice <$> readSetCookiesLoop fuel (header_get h "Set-Cookie") [].

(** ** Token grammar *)

(** Modelled from the spec: the separators of the token grammar,
    ( ) < > @ , ; : \ DQUOTE / [ ] ? = { } space tab (the table
    [isNotToken] consults is defined outside the files at hand). *)
Definition isSeparator (b : ascii) : bool :=
  existsb (Ascii.eqb b)
    (str "()<>@,;:\/[]?={} " ++ [DQUOTE; TAB]).

(** Modelled from the spec: the control characters, 0x00-0x1F and 0x7F. *)
Definition isControl (b : ascii) : bool :=
  (code b <? 0x20)%N || (code b =? 0x7f)%N.

(** Modelled from the spec: [isNotToken] is defined outside the files at
    hand.  A token byte is an ASCII byte that is neither a control
    character nor a separator; [isNotToken] holds of every other byte. *)
Definition isNotToken (b : ascii) : bool :=
  negb ((code b <? 0x80)%N && negb (isControl b) && negb (isSeparator b)).

Definition isCookieNameValid (raw : gostring) : bool :=
  if bool_decide (raw = []) then false
  else (strings.IndexFunc raw isNotToken <? 0)%Z.

(** ** Cookie values *)

Definition validCookieValueByte (b : ascii) : bool :=
  (0x20 <=? code b)%N && (code b <? 0x7f)%N
  && negb (Ascii.eqb b DQUOTE) && negb (Ascii.eqb b ";") && negb (Ascii.eqb b "\").

Definition validCookiePathByte (b : ascii) : bool :=
  (0x20 <=? code b)%N && (code b <? 0x7f)%N && negb (Ascii.eqb b ";").

(** [raw[len(raw)-1]], with a default for the empty string (never read
    there: the source guards the access by [len(raw) > 1]). *)
Definition last_byte (raw : gostring) : ascii := List.last raw "000".

(** Loop of [parseCookieValue]: [true] when the loop runs to its end,
    [false] when it returns early at an invalid byte. *)
Fixpoint allValidCookieValueBytes (raw : gostring) : bool :=
  match raw with
  | [] => true
  | b :: raw' =>
      if negb (validCookieValueByte b) then false
      else allValidCookieValueBytes raw'
  end.

(** [parseCookieValue] returns [(value, quoted, ok)]. *)
Definition parseCookieValue (raw : gostring) (allowDoubleQuote : bool)
  : gostring * bool * bool :=
  let strip := allowDoubleQuote && (1 <? length raw)%nat
               && Ascii.eqb (List.hd "000" raw) DQUOTE
               && Ascii.eqb (last_byte raw) DQUOTE in
  let raw' := if strip then take (length raw - 2) (drop 1 raw) else raw in
  let quoted := strip in
  if allValidCookieValueBytes raw' then (raw', quoted, true)
  else ([], quoted, false).

(** ** Sanitizers (write side) *)

(** One line written with [log.Printf]: the offending byte and the field. *)
Record LogLine : Type := mkLogLine {
  badByte : ascii;
  field : string
}.

(** First loop of [sanitizeOrWarn]: the first byte that is not [valid],
    at which the source logs and breaks. *)
Fixpoint firstInvalid (valid : ascii -> bool) (v : gostring) : option ascii :=
  match v with
  | [] => None
  | b :: v' => if valid b then firstInvalid valid v' else Some b
  end.

(** Second loop of [sanitizeOrWarn]: append the valid bytes to [buf]. *)
Fixpoint keepValid (valid : ascii -> bool) (v : gostring) (buf : gostring) : gostring :=
  match v with
  | [] => buf
  | b :: v' => if valid b then keepValid valid v' (buf ++ [b]) else keepValid valid v' buf
  end.

(** [sanitizeOrWarn] returns the sanitized string together with the
    lines it logged. *)
Definition sanitizeOrWarn (fieldName : string) (valid : ascii -> bool)
    (v : gostring) : gostring * list LogLine :=
  match firstInvalid valid v with
  | None => (v, [])
  | Some b => (keepValid valid v [], [mkLogLine b fieldName])
  end.

Definition sanitizeCookieValue (v : gostring) (quoted : bool)
  : gostring * list LogLine :=
  let '(v, log) := sanitizeOrWarn "Cookie.Value" validCookieValueByte v in
  if Nat.eqb (length v) 0 then (v, log)
  else if strings.ContainsAny v (str " ,") || quoted
       then ([DQUOTE] ++ v ++ [DQUOTE], log)
       else (v, log).

(** [cookieNameSanitizer.Replace]: every "\n" and "\r" becomes "-". *)
Definition sanitizeCookieName (n : gostring) : gostring :=
  map (fun b => if Ascii.eqb b LF || Ascii.eqb b CR then "-" else b) n.

Definition sanitizeCookiePath (v : gostring) : gostring * list LogLine :=
  sanitizeOrWarn "Cookie.Path" validCookiePathByte v.

(** ** Reading request cookies *)

(** Body of the inner loop of [readCookies] for one [part] cut off the
    line: [Some c] when the iteration reaches the [append], [None] when
    it leaves through one of the [continue] statements. *)
Definition readCookiePart (filter part : gostring) : option Cookie :=
  let part := textproto.TrimString part in
  if bool_decide (part = []) then None
  else
    let '(name, val, _) := strings.Cut part "=" in
    let name := textproto.TrimString name in
    if negb (isCookieNameValid name) then None
    else if bool_decide (filter <> []) && bool_decide (filter <> name) then None
    else
      let '(val, quoted, ok) := parseCookieValue val true in
      if negb ok then None
      else Some {| Name := name; Value := val; Quoted := quoted |}.

(** Inner loop [for len(line) > 0].  Each iteration consumes one unit of
    [fuel]; [None] means the loop has not finished within [fuel]
    iterations. *)
Fixpoint readCookieLine (fuel : nat) (filter line : gostring)
    (cookies : list Cookie) : option (list Cookie) :=
  if Nat.ltb 0 (length line) then
    match fuel with
    | O => None
    | S fuel' =>
        let '(part, line', _) := strings.Cut line ";" in
        match readCookiePart filter part with
        | None => readCookieLine fuel' filter line' cookies
        | Some c => readCookieLine fuel' filter line' (cookies ++ [c])
        end
    end
  else Some cookies.

(** Outer loop [for _, line := range lines]. *)
Fixpoint readCookieLines (filter : gostring) (lines : list gostring)
    (cookies : list Cookie) : option (list Cookie) :=
  match lines with
  | [] => Some cookies
  | line :: rest =>
      let line := textproto.TrimString line in
      match readCookieLine (length line) filter line cookies with
      | None => None
      | Some cookies' => readCookieLines filter rest cookies'
      end
  end.

(** [readCookies].  The capacity passed to [make] has no effect on the
    value of the slice and is left out. *)
Definition readCookies (h : Header) (filter : gostring) : option (slice Cookie) :=
  let lines := header_get h "Cookie" in
  if Nat.eqb (length lines) 0 then Some (mk_slice [])
  else mk_slice <$> readCookieLines filter lines [].

(** A header holding exactly the given "Cookie" lines. *)
Definition cookieHeader (lines : list gostring) : Header :=
  {[ "Cookie"%string := lines ]}.

(** ** IP literals ([net.ParseIP])

    [net.ParseIP] belongs to Go's standard library.  It is modelled after
    [net/netip.ParseAddr], through which it is implemented: the first
    '.', ':' or '%' of the text selects the dotted-decimal or the
    colon-hexadecimal parser, and an address with a zone is refused. *)

Module net.

Definition isDigit (c : ascii) : bool :=
  (code "0" <=? code c)%N && (code c <=? code "9")%N.

Record v4State : Type := mkV4 {
  v4_val : N;
  v4_pos : nat;
  v4_digLen : nat;
  v4_fields : list N
}.

(** Loop of [parseIPv4Fields]; [prev] is [s[i-1]] ([None] when i = 0)
    and the text still to read tells whether [i == len(s)-1]. *)
Fixpoint parseIPv4Loop (prev : option ascii) (s : gostring) (st : v4State)
  : option v4State :=
  match s with
  | [] => Some st
  | c :: s' =>
      if isDigit c then
        if Nat.eqb (v4_digLen st) 1 && (v4_val st =? 0)%N then None
        else
          let val := (v4_val st * 10 + (code c - code "0"))%N in
          if (255 <? val)%N then None
          else parseIPv4Loop (Some c) s'
                 (mkV4 val (v4_pos st) (S (v4_digLen st)) (v4_fields st))
      else if Ascii.eqb c "." then
        if bool_decide (prev = None) || bool_decide (s' = [])
           || bool_decide (prev = Some ".") then None
        else if Nat.eqb (v4_pos st) 3 then None
        else parseIPv4Loop (Some c) s'
               (mkV4 0 (S (v4_pos st)) 0 (<[v4_pos st := v4_val st]> (v4_fields st)))
      else None
  end.

Definition parseIPv4Fields (s : gostring) : option (list N) :=
  match parseIPv4Loop None s (mkV4 0 0 0 [0; 0; 0; 0]%N) with
  | None => None
  | Some st =>
      if Nat.ltb (v4_pos st) 3 then None
      else Some (<[3 := v4_val st]> (v4_fields st))
  end.

Definition hexVal (c : ascii) : option N :=
  if isDigit c then Some (code c - code "0")%N
  else if (code "a" <=? code c)%N && (code c <=? code "f")%N
       then Some (code c - code "a" + 10)%N
  else if (code "A" <=? code c)%N && (code c <=? code "F")%N
       then Some (code c - code "A" + 10)%N
  else None.

(** Inner loop of [parseIPv6] reading one hexadecimal group from
    offset [off]: [None] on the two error returns, otherwise the offset
    it stops at and the accumulated value. *)
Fixpoint parseHexGroup (s : gostring) (off : nat) (acc : N) : option (nat * N) :=
  match s with
  | [] => Some (off, acc)
  | c :: s' =>
      match hexVal c with
      | None => Some (off, acc)
      | Some d =>
          let acc := (N.shiftl acc 4 + d)%N in
          if Nat.ltb 3 off then None
          else if (0xffff <? acc)%N then None
          else parseHexGroup s' (S off) acc
      end
  end.

(** State of [parseIPv6] when its main loop is left: the unread text,
    the write index, the ellipsis position (-1 when absent), the bytes. *)
Definition v6State : Type := gostring * nat * Z * list N.

(** Main loop [for i < 16] of [parseIPv6]; it runs at most eight times
    since every iteration that does not leave the loop adds 2 to [i]. *)
Fixpoint parseIPv6Loop (n : nat) (s : gostring) (i : nat) (ellipsis : Z)
    (ip : list N) : option v6State :=
  match n with
  | O => Some (s, i, ellipsis, ip)
  | S n' =>
      if negb (Nat.ltb i 16) then Some (s, i, ellipsis, ip)
      else
        match parseHexGroup s 0 0 with
        | None => None
        | Some (off, acc) =>
            if Nat.eqb off 0 then None
            else if Nat.ltb off (length s) && Ascii.eqb (nth off s "000") "." then
              if (ellipsis <? 0)%Z && negb (Nat.eqb i 12) then None
              else if Nat.ltb 16 (i + 4) then None
              else
                match parseIPv4Fields s with
                | None => None
                | Some fields => Some ([], i + 4, ellipsis, take i ip ++ fields ++ drop (i + 4) ip)
                end
            else
              let ip := <[S i := N.land acc 0xff]> (<[i := N.shiftr acc 8]> ip) in
              let i := i + 2 in
              let s := drop off s in
              if Nat.eqb (length s) 0 then Some (s, i, ellipsis, ip)
              else if negb (Ascii.eqb (hd "000" s) ":") then None
              else if Nat.eqb (length s) 1 then None
              else
                let s := drop 1 s in
                if Ascii.eqb (hd "000" s) ":" then
                  if (0 <=? ellipsis)%Z then None
                  else
                    let ellipsis := Z.of_nat i in
                    let s := drop 1 s in
                    if Nat.eqb (length s) 0 then Some (s, i, ellipsis, ip)
                    else parseIPv6Loop n' s i ellipsis ip
                else parseIPv6Loop n' s i ellipsis ip
        end
  end.

(** [parseIPv6]: the sixteen bytes and the zone. *)
Definition parseIPv6 (input : gostring) : option (list N * gostring) :=
  let '(s, zone, found) := strings.Cut input "%" in
  if found && bool_decide (zone = []) then None
  else
    let zeros := repeat 0%N 16 in
    let leading := Nat.leb 2 (length s) && Ascii.eqb (nth 0 s "000") ":"
                   && Ascii.eqb (nth 1 s "000") ":" in
    let ellipsis := if leading then 0%Z else (-1)%Z in
    let s := if leading then drop 2 s else s in
    if leading && Nat.eqb (length s) 0 then Some (zeros, zone)
    else
      match parseIPv6Loop 8 s 0 ellipsis zeros with
      | None => None
      | Some (s, i, ellipsis, ip) =>
          if negb (Nat.eqb (length s) 0) then None
          else if Nat.ltb i 16 then
            if (ellipsis <? 0)%Z then None
            else
              let e := Z.to_nat ellipsis in
              Some (take e ip ++ repeat 0%N (16 - i) ++ take (i - e) (drop e ip), zone)
          else if (0 <=? ellipsis)%Z then None
          else Some (ip, zone)
      end.

(** A parsed address: four bytes, or sixteen bytes and a zone. *)
Inductive Addr : Type :=
| Addr4 (b : list N)
| Addr6 (b : list N) (zone : gostring).

Definition Zone (a : Addr) : gostring :=
  match a with Addr4 _ => [] | Addr6 _ z => z end.

Definition As16 (a : Addr) : list N :=
  match a with
  | Addr4 b => repeat 0%N 10 ++ [0xff; 0xff]%N ++ b
  | Addr6 b _ => b
  end.

(** Scan of [ParseAddr] for the first '.', ':' or '%' of [s]. *)
Fixpoint ParseAddrFrom (rest s : gostring) : option Addr :=
  match rest with
  | [] => None
  | c :: rest' =>
      if Ascii.eqb c "." then Addr4 <$> parseIPv4Fields s
      else if Ascii.eqb c ":" then (fun r => Addr6 r.1 r.2) <$> parseIPv6 s
      else if Ascii.eqb c "%" then None
      else ParseAddrFrom rest' s
  end.

Definition ParseAddr (s : gostring) : option Addr := ParseAddrFrom s s.

(** [net.ParseIP]: [None] stands for the nil IP. *)
Definition ParseIP (s : gostring) : option (list N) :=
  match ParseAddr s with
  | Some a => if negb (bool_decide (Zone a = [])) then None else Some (As16 a)
  | None => None
  end.

End net.

(** ** Cookie domains *)

Definition isLetter (c : ascii) : bool :=
  (code "a" <=? code c)%N && (code c <=? code "z")%N
  || (code "A" <=? code c)%N && (code c <=? code "Z")%N.

(** Loop variables of [isCookieDomainName]. *)
Record dnState : Type := mkDn {
  dn_last : ascii;
  dn_ok : bool;
  dn_partlen : nat
}.

(** One iteration of the loop of [isCookieDomainName]: [None] where the
    source returns false, otherwise the variables after [last = c]. *)
Definition dnStep (st : dnState) (c : ascii) : option dnState :=
  if isLetter c then Some (mkDn c true (S (dn_partlen st)))
  else if net.isDigit c then Some (mkDn c (dn_ok st) (S (dn_partlen st)))
  else if Ascii.eqb c "-" then
    if Ascii.eqb (dn_last st) "." then None
    else Some (mkDn c (dn_ok st) (S (dn_partlen st)))
  else if Ascii.eqb c "." then
    if Ascii.eqb (dn_last st) "." || Ascii.eqb (dn_last st) "-" then None
    else if Nat.ltb 63 (dn_partlen st) || Nat.eqb (dn_partlen st) 0 then None
    else Some (mkDn c (dn_ok st) 0)
  else None.

Fixpoint dnLoop (st : dnState) (s : gostring) : option dnState :=
  match s with
  | [] => Some st
  | c :: s' =>
      match dnStep st c with
      | None => None
      | Some st' => dnLoop st' s'
      end
  end.

Definition isCookieDomainName (s : gostring) : bool :=
  if Nat.eqb (length s) 0 then false
  else if Nat.ltb 255 (length s) then false
  else
    let s := if Ascii.eqb (hd "000" s) "." then drop 1 s else s in
    match dnLoop (mkDn "." false 0) s with
    | None => false
    | Some st =>
        if Ascii.eqb (dn_last st) "-" || Nat.ltb 63 (dn_partlen st) then false
        else dn_ok st
    end.

Definition validCookieDomain (v : gostring) : bool :=
  if isCookieDomainName v then true
  else if bool_decide (net.ParseIP v <> None) && negb (strings.Contains v ":") then true
  else false.

(** * Further functions of the package *)

(** ** request.go *)

(** [removeZone]: [host[:j] + host[i:]], with [i] the last ']' and [j]
    the last '%' before it. *)
Definition removeZone (host : gostring) : gostring :=
  if negb (strings.HasPrefix host (str "[")) then host
  else
    let i := strings.LastIndex host "]" in
    if (i <? 0)%Z then host
    else
      let j := strings.LastIndex (take (Z.to_nat i) host) "%" in
      if (j <? 0)%Z then host
      else take (Z.to_nat j) host ++ drop (Z.to_nat i) host.

(** [ParseHTTPVersion] returns [(major, minor, ok)]. *)
Definition ParseHTTPVersion (vers : gostring) : Z * Z * bool :=
  if bool_decide (vers = str "HTTP/1.1") then (1, 1, true)%Z
  else if bool_decide (vers = str "HTTP/1.0") then (1, 0, true)%Z
  else if negb (strings.HasPrefix vers (str "HTTP/")) then (0, 0, false)%Z
  else if negb (Nat.eqb (length vers) (length (str "HTTP/X.Y"))) then (0, 0, false)%Z
  else if negb (Ascii.eqb (nth 6 vers "000") ".") then (0, 0, false)%Z
  else
    match strconv.ParseUint (take (6 - 5) (drop 5 vers)) with
    | None => (0, 0, false)%Z
    | Some maj =>
        match strconv.ParseUint (take (8 - 7) (drop 7 vers)) with
        | None => (0, 0, false)%Z
        | Some min => (Z.of_N maj, Z.of_N min, true)
        end
    end.

Definition validMethod (method : gostring) : bool :=
  Nat.ltb 0 (length method)
  && (strings.IndexFunc method isNotToken =? -1)%Z.

(** ** response.go *)

(** [fixPragmaCacheControl] updates the header map in place; the map
    after the call is returned. *)
Definition fixPragmaCacheControl (header : Header) : Header :=
  match header !! "Pragma"%string with
  | Some hp =>
      if Nat.ltb 0 (length hp) && bool_decide (List.hd [] hp = str "no-cache") then
        match header !! "Cache-Control"%string with
        | None => <[ "Cache-Control"%string := [str "no-cache"] ]> header
        | Some _ => header
        end
      else header
  | None => header
  end.

(** A one-byte decimal digit, as [fmt] prints a number below ten. *)
Definition digitByte (n : Z) : ascii := ascii_of_N (Z.to_N n + 48).

(** * Specification-side notions

    The definitions below follow the words of the specification; the
    properties compare them with the functions embedded above. *)

(** The pieces of [s] between occurrences of [sep], in order. *)
Fixpoint splitOn (sep : ascii) (s : gostring) : list gostring :=
  match s with
  | [] => [[]]
  | c :: s' =>
      if Ascii.eqb c sep then [] :: splitOn sep s'
      else match splitOn sep s' with
           | seg :: segs => (c :: seg) :: segs
           | [] => [[c]]
           end
  end.

(** The segments of a header line: trim the line, split on ';'. *)
Definition segments (line : gostring) : list gostring :=
  splitOn ";" (textproto.TrimString line).

(** One cookie per segment that survives validation, in segment order. *)
Definition cookiesOfLine (filter line : gostring) : list Cookie :=
  omap (readCookiePart filter) (segments line).

Definition cookiesOfLines (filter : gostring) (lines : list gostring)
  : list Cookie :=
  concat (map (cookiesOfLine filter) lines).

(** A token byte. *)
Definition isTokenByte (b : ascii) : bool := negb (isNotToken b).

(** The byte range the value parser accepts: 0x20-0x7E without DQUOTE,
    ';' and '\'. *)
Definition valueOctet (b : ascii) : Prop :=
  (0x20 <= code b <= 0x7e)%N /\ b <> DQUOTE /\ b <> ";" /\ b <> "\".

(** The cookie-octet range as the specification words it: 0x21-0x7E
    without DQUOTE, ';' and '\'. *)
Definition cookieOctet (b : ascii) : Prop :=
  (0x21 <= code b <= 0x7e)%N /\ b <> DQUOTE /\ b <> ";" /\ b <> "\".

(** [Unquoted raw body quoted]: [body] is [raw] without its enclosing
    double quotes when [raw] begins and ends with one and is longer than
    one byte ([quoted] is then true), and [raw] itself otherwise. *)
Inductive Unquoted : gostring -> gostring -> bool -> Prop :=
| unquoted_strip (body : gostring) :
    Unquoted (DQUOTE :: body ++ [DQUOTE]) body true
| unquoted_keep (raw : gostring) :
    (forall body, raw <> DQUOTE :: body ++ [DQUOTE]) ->
    Unquoted raw raw false.

(** Letters, digits and the hyphen. *)
Definition isLDH (c : ascii) : Prop :=
  isLetter c = true \/ net.isDigit c = true \/ c = "-".

(** A label: 1 to 63 letters, digits and hyphens, with no hyphen at
    either end. *)
Definition Label (l : gostring) : Prop :=
  1 <= length l <= 63 /\ Forall isLDH l /\
  List.hd "." l <> "-" /\ List.last l "." <> "-".

(** Labels written one after the other with a dot between neighbours. *)
Fixpoint joinDots (labels : list gostring) : gostring :=
  match labels with
  | [] => []
  | [l] => l
  | l :: ls => l ++ "." :: joinDots ls
  end.

Definition optDot (present : bool) : gostring :=
  if present then ["."] else [].

(** A cookie domain name: at most 255 bytes, one or more labels joined
    by dots, optionally with one dot in front and one dot behind, and at
    least one letter. *)
Definition CookieDomainName (v : gostring) : Prop :=
  length v <= 255 /\
  Exists (fun c => isLetter c = true) v /\
  exists (lead trail : bool) (labels : list gostring),
    labels <> [] /\ Forall Label labels /\
    v = optDot lead ++ joinDots labels ++ optDot trail.

(** Value of a decimal numeral. *)
Definition decimalFrom (acc : N) (ds : gostring) : N :=
  fold_left (fun acc d => (acc * 10 + (code d - code "0"))%N) ds acc.

(** A decimal octet: one to three digits, no leading zero, at most 255. *)
Definition Octet (ds : gostring) : Prop :=
  ds <> [] /\ Forall (fun c => net.isDigit c = true) ds /\
  (List.hd "." ds = "0" -> length ds = 1) /\
  (decimalFrom 0 ds <= 255)%N.

(** A dotted-decimal IPv4 literal: four octets separated by dots. *)
Definition IPv4Literal (v : gostring) : Prop :=
  exists a b c d : gostring,
    Octet a /\ Octet b /\ Octet c /\ Octet d /\
    v = a ++ "." :: b ++ "." :: c ++ "." :: d.

(** Complete labels, each followed by its dot. *)
Definition dotted (done : list gostring) : gostring :=
  concat (map (fun l => l ++ ["."]) done).

(** What the loop of [isCookieDomainName] has established after reading
    [s]: the complete labels [done], the label [cur] being read. *)
Definition dnInv (s : gostring) (st : dnState) : Prop :=
  exists (done : list gostring) (cur : gostring),
    s = dotted done ++ cur /\
    Forall Label done /\
    Forall isLDH cur /\
    List.hd "." cur <> "-" /\
    st = mkDn (List.last cur ".") (existsb isLetter s) (length cur).

(** ASCII lower-casing of one byte. *)
Definition lowerByte (c : ascii) : ascii :=
  if (code "A" <=? code c)%N && (code c <=? code "Z")%N
  then ascii_of_N (code c + 32) else c.

(** Two states of the loop of [isCookieDomainName] that the rest of the
    loop cannot tell apart. *)
Definition dnSame (st st' : dnState) : Prop :=
  dn_ok st = dn_ok st' /\ dn_partlen st = dn_partlen st' /\
  Ascii.eqb (dn_last st) "." = Ascii.eqb (dn_last st') "." /\
  Ascii.eqb (dn_last st) "-" = Ascii.eqb (dn_last st') "-".

(** Header lines written as one line, with a ';' between neighbours. *)
Fixpoint joinSemicolons (lines : list gostring) : gostring :=
  match lines with
  | [] => []
  | [l] => l
  | l :: ls => l ++ ";" :: joinSemicolons ls
  end.

(** Case analysis over the 256 bytes. *)
Ltac byte_cases c :=
  destruct c as [[] [] [] [] [] [] [] []]; vm_compute;
  try reflexivity; try discriminate; try tauto; try (intuition congruence).

(** * Properties *)

(** ** Sample evaluations *)

Example readCookies_sample :
  readCookies
    (cookieHeader [str "a=1; b=" ++ [DQUOTE] ++ str "x y" ++ [DQUOTE] ++ str " ;; =z; c"]) [] =
  Some (mk_slice [mkCookie (str "a") (str "1") false;
                  mkCookie (str "b") (str "x y") true;
                  mkCookie (str "c") [] false]).
Proof. vm_compute. reflexivity. Qed.

Example ParseIP_v4 : net.ParseIP (str "192.168.0.1") =
  Some [0;0;0;0;0;0;0;0;0;0;255;255;192;168;0;1]%N.
Proof. vm_compute. reflexivity. Qed.

Example ParseIP_v6 : net.ParseIP (str "2001:db8::68") =
  Some [0x20;0x01;0x0d;0xb8;0;0;0;0;0;0;0;0;0;0;0;0x68]%N.
Proof. vm_compute. reflexivity. Qed.

Example ParseIP_v6_mapped : net.ParseIP (str "::ffff:1.2.3.4") =
  Some [0;0;0;0;0;0;0;0;0;0;255;255;1;2;3;4]%N.
Proof. vm_compute. reflexivity. Qed.

Example ParseIP_bad :
  net.ParseIP (str "1.2.3") = None /\ net.ParseIP (str "01.2.3.4") = None /\
  net.ParseIP (str "fe80::1%en0") = None /\ net.ParseIP (str "1:2:3:4:5:6:7:8:9") = None /\
  net.ParseIP (str "1::2::3") = None /\ net.ParseIP (str "example.com") = None.
Proof. vm_compute. repeat split; reflexivity. Qed.

Example validCookieDomain_samples :
  map validCookieDomain
    [str "example.com"; str ".example.com"; str "a."; str "1.2.3.4"; str "::1";
     str "-a.com"; str "a-.com"; str "a..b"; str "1.2.3"; str "."; []; str "a_b.com"]
  = [true; true; true; true; false; false; false; false; false; false; false; false].
Proof. vm_compute. reflexivity. Qed.

Example token_table_size :
  length (List.filter isTokenByte (map ascii_of_nat (seq 0 256))) = 77.
Proof. vm_compute. reflexivity. Qed.

Example token_bytes_sample :
  isCookieNameValid (str "session_id") = true /\
  isCookieNameValid (str "X-Auth.1") = true /\
  isCookieNameValid (str "a=b") = false /\
  isCookieNameValid (str "a;b") = false /\
  isCookieNameValid (str "a b") = false /\
  isCookieNameValid [] = false.
Proof. vm_compute. repeat split; reflexivity. Qed.



(** ** ParseSetCookie *)

Lemma ParseSetCookie_out_of_fuel (fuel : nat) (line : gostring) :
  ParseSetCookie fuel line = None.
Proof. induction fuel as [|fuel IH]; simpl; [reflexivity | exact IH]. Qed.

(** C1: on the three inputs of the claim ("", "foo", "=bar") the call
    chain of [ParseSetCookie] never bottoms out: whatever the number of
    nested calls allowed, no error value (and no cookie) is returned. *)
Theorem ParseSetCookie_examples_never_return (fuel : nat) :
  ParseSetCookie fuel (str "") = None /\
  ParseSetCookie fuel (str "foo") = None /\
  ParseSetCookie fuel (str "=bar") = None.
Proof. repeat split; apply ParseSetCookie_out_of_fuel. Qed.

(** C2: [ParseSetCookie] returns on no input: for every line and every
    bound on the depth of the call chain there is no result, neither a
    cookie nor an error; [readSetCookies], which calls it, does not
    return either as soon as there is a "Set-Cookie" line. *)
Theorem ParseSetCookie_never_returns (fuel : nat) (line : gostring) :
  ParseSetCookie fuel line = None /\
  readSetCookies fuel {[ "Set-Cookie"%string := [line] ]} = None.
Proof.
  split; [apply ParseSetCookie_out_of_fuel|].
  unfold readSetCookies, header_get. rewrite lookup_singleton_eq. simpl.
  now rewrite ParseSetCookie_out_of_fuel.
Qed.

(** ** Sanitizers *)

Lemma firstInvalid_forallb (valid : ascii -> bool) (v : gostring) :
  firstInvalid valid v = None <-> forallb valid v = true.
Proof.
  induction v as [|b v IH]; simpl; [tauto|].
  destruct (valid b); simpl; [exact IH | split; discriminate].
Qed.

Lemma keepValid_filter (valid : ascii -> bool) (v buf : gostring) :
  keepValid valid v buf = buf ++ List.filter valid v.
Proof.
  revert buf. induction v as [|b v IH]; intros buf; simpl.
  - now rewrite app_nil_r.
  - destruct (valid b); rewrite IH; [|reflexivity].
    now rewrite <- app_assoc.
Qed.

Lemma filter_all (valid : ascii -> bool) (v : gostring) :
  forallb valid v = true -> List.filter valid v = v.
Proof.
  induction v as [|b v IH]; simpl; [reflexivity|].
  destruct (valid b); simpl; [|discriminate].
  intros H. now rewrite IH.
Qed.

Lemma filter_sublist (valid : ascii -> bool) (v : gostring) :
  sublist (List.filter valid v) v.
Proof.
  induction v as [|b v IH]; simpl; [constructor|].
  destruct (valid b); now constructor.
Qed.

Lemma sanitizeOrWarn_filter (fieldName : string) (valid : ascii -> bool)
    (v : gostring) :
  (sanitizeOrWarn fieldName valid v).1 = List.filter valid v.
Proof.
  unfold sanitizeOrWarn.
  destruct (firstInvalid valid v) eqn:E; simpl.
  - now rewrite keepValid_filter.
  - symmetry. now apply filter_all, firstInvalid_forallb.
Qed.

(** C9: [sanitizeOrWarn] always yields a string: the input itself when
    every byte is valid, and otherwise the bytes of the input that are
    valid, in their order (a subsequence of the input, all of whose bytes
    are valid).  A line is logged exactly when some byte is dropped. *)
Theorem sanitizeOrWarn_strips (fieldName : string) (valid : ascii -> bool)
    (v : gostring) :
  (sanitizeOrWarn fieldName valid v).1 =
    (if forallb valid v then v else List.filter valid v) /\
  sublist (sanitizeOrWarn fieldName valid v).1 v /\
  forallb valid (sanitizeOrWarn fieldName valid v).1 = true /\
  ((sanitizeOrWarn fieldName valid v).2 = [] <-> forallb valid v = true).
Proof.
  rewrite sanitizeOrWarn_filter. repeat split.
  - destruct (forallb valid v) eqn:E; [now apply filter_all | reflexivity].
  - apply filter_sublist.
  - apply forallb_forall. intros b Hb. now apply filter_In in Hb.
  - unfold sanitizeOrWarn. destruct (firstInvalid valid v) eqn:E; simpl.
    + discriminate.
    + intros _. now apply firstInvalid_forallb.
  - unfold sanitizeOrWarn. intros H%firstInvalid_forallb. now rewrite H.
Qed.

Lemma filter_none (valid : ascii -> bool) (v : gostring) :
  Forall (fun b => valid b = false) v -> List.filter valid v = [].
Proof.
  induction 1 as [|b v Hb _ IH]; simpl; [reflexivity|]. now rewrite Hb.
Qed.

(** C10: when value sanitization strips every byte of [v] (in particular
    when [v] is empty), [sanitizeCookieValue] yields the empty string,
    without double quotes, whatever [quoted] is. *)
Theorem sanitizeCookieValue_empty (v : gostring) (quoted : bool) :
  Forall (fun b => validCookieValueByte b = false) v ->
  (sanitizeCookieValue v quoted).1 = [].
Proof.
  intros H. unfold sanitizeCookieValue.
  pose proof (sanitizeOrWarn_filter "Cookie.Value" validCookieValueByte v) as Hf.
  rewrite (filter_none _ _ H) in Hf.
  destruct (sanitizeOrWarn "Cookie.Value" validCookieValueByte v) as [v' log].
  simpl in Hf. subst v'. reflexivity.
Qed.

Lemma sanitizeCookieValue_empty_witness :
  (sanitizeCookieValue [] true).1 = [] /\
  (sanitizeCookieValue (str ";\" ++ [DQUOTE; LF]) true).1 = [].
Proof.
  split; apply sanitizeCookieValue_empty.
  - constructor.
  - repeat constructor.
Defined.

(** C7: the value [hello, world] is written in double quotes (it holds a
    comma and a space), and reading the written form back as a cookie
    value gives [hello, world] with the quoted flag set. *)
Theorem hello_world_roundtrip :
  (sanitizeCookieValue (str "hello, world") false).1 =
    [DQUOTE] ++ str "hello, world" ++ [DQUOTE] /\
  parseCookieValue (sanitizeCookieValue (str "hello, world") false).1 true =
    (str "hello, world", true, true).
Proof. split; vm_compute; reflexivity. Qed.

(** ** Reading request cookies *)

Lemma Cut_after_le (s : gostring) (sep : ascii) (before after : gostring)
    (found : bool) :
  strings.Cut s sep = (before, after, found) -> length after <= length s.
Proof.
  revert before after found.
  induction s as [|c s IH]; intros before after found H; simpl in H.
  - injection H as <- <- <-. simpl. lia.
  - destruct (Ascii.eqb c sep).
    + injection H as <- <- <-. simpl. lia.
    + destruct (strings.Cut s sep) as [[b a] f] eqn:E.
      injection H as <- <- <-. specialize (IH _ _ _ eq_refl). simpl. lia.
Qed.

Lemma Cut_shorter (s : gostring) (sep : ascii) (before after : gostring)
    (found : bool) :
  strings.Cut s sep = (before, after, found) ->
  s <> [] -> length after < length s.
Proof.
  destruct s as [|c s]; intros H Hne; [congruence|].
  simpl in H. destruct (Ascii.eqb c sep).
  - injection H as <- <- <-. simpl. lia.
  - destruct (strings.Cut s sep) as [[b a] f] eqn:E.
    injection H as <- <- <-. apply Cut_after_le in E. simpl. lia.
Qed.

Lemma Cut_not_found (s : gostring) (sep : ascii) (before after : gostring) :
  strings.Cut s sep = (before, after, false) -> before = s /\ after = [].
Proof.
  revert before after.
  induction s as [|c s IH]; intros before after H; simpl in H.
  - now injection H as <- <-.
  - destruct (Ascii.eqb c sep); [discriminate|].
    destruct (strings.Cut s sep) as [[b a] f] eqn:E.
    injection H as <- <- ->. destruct (IH _ _ eq_refl) as [-> ->]. now split.
Qed.

Lemma Cut_splitOn (s : gostring) (sep : ascii) (before after : gostring)
    (found : bool) :
  strings.Cut s sep = (before, after, found) ->
  splitOn sep s = before :: (if found then splitOn sep after else []).
Proof.
  revert before after found.
  induction s as [|c s IH]; intros before after found H; simpl in H.
  - now injection H as <- <- <-.
  - simpl. destruct (Ascii.eqb c sep).
    + now injection H as <- <- <-.
    + destruct (strings.Cut s sep) as [[b a] f] eqn:E.
      injection H as <- <- <-. now rewrite (IH _ _ _ eq_refl).
Qed.

Lemma readCookiePart_nil (filter : gostring) : readCookiePart filter [] = None.
Proof. reflexivity. Qed.

Lemma readCookieLine_segments (fuel : nat) (filter line : gostring)
    (cookies : list Cookie) :
  length line <= fuel ->
  readCookieLine fuel filter line cookies =
    Some (cookies ++ omap (readCookiePart filter) (splitOn ";" line)).
Proof.
  revert line cookies.
  induction fuel as [|fuel IH]; intros line cookies Hlen.
  - destruct line; [|simpl in Hlen; lia].
    simpl. now rewrite app_nil_r.
  - destruct line as [|c line].
    { simpl. now rewrite app_nil_r. }
    cbn [readCookieLine]. change (Nat.ltb 0 (length (c :: line))) with true.
    cbv iota.
    destruct (strings.Cut (c :: line) ";") as [[part line'] found] eqn:E.
    rewrite (Cut_splitOn _ _ _ _ _ E).
    assert (Hlen' : length line' <= fuel).
    { pose proof (Cut_shorter _ _ _ _ _ E ltac:(discriminate)). simpl in *. lia. }
    assert (Hrest : omap (readCookiePart filter)
                      (if found then splitOn ";" line' else []) =
                    omap (readCookiePart filter) (splitOn ";" line')).
    { destruct found; [reflexivity|].
      destruct (Cut_not_found _ _ _ _ E) as [_ ->]. reflexivity. }
    cbn [omap list_omap]. rewrite Hrest.
    destruct (readCookiePart filter part) as [ck|].
    + rewrite (IH _ _ Hlen'). now rewrite <- app_assoc.
    + now rewrite (IH _ _ Hlen').
Qed.

Lemma readCookieLines_segments (filter : gostring) (lines : list gostring)
    (cookies : list Cookie) :
  readCookieLines filter lines cookies =
    Some (cookies ++ cookiesOfLines filter lines).
Proof.
  revert cookies. induction lines as [|line lines IH]; intros cookies.
  - simpl. unfold cookiesOfLines. simpl. now rewrite app_nil_r.
  - cbn [readCookieLines].
    rewrite readCookieLine_segments by lia.
    rewrite IH. unfold cookiesOfLines, cookiesOfLine, segments. simpl.
    now rewrite <- app_assoc.
Qed.

Lemma readCookies_segments (h : Header) (filter : gostring) :
  readCookies h filter =
    Some (mk_slice (cookiesOfLines filter (header_get h "Cookie"))).
Proof.
  unfold readCookies.
  destruct (header_get h "Cookie") as [|line lines] eqn:E.
  - reflexivity.
  - simpl Nat.eqb. cbv iota. now rewrite readCookieLines_segments.
Qed.

Lemma IndexFunc_lower (s : gostring) (f : ascii -> bool) :
  (-1 <= strings.IndexFunc s f)%Z.
Proof.
  induction s as [|c s IH]; simpl; [lia|].
  destruct (f c); [lia|].
  destruct (Z.ltb_spec (strings.IndexFunc s f) 0); lia.
Qed.

Lemma IndexFunc_none (s : gostring) (f : ascii -> bool) :
  (strings.IndexFunc s f <? 0)%Z = forallb (fun b => negb (f b)) s.
Proof.
  induction s as [|c s IH]; simpl; [reflexivity|].
  destruct (f c); simpl; [reflexivity|].
  rewrite <- IH.
  destruct (Z.ltb_spec (strings.IndexFunc s f) 0) as [Hlt|Hge]; [reflexivity|].
  apply Z.ltb_ge. lia.
Qed.

Lemma isCookieNameValid_token (raw : gostring) :
  isCookieNameValid raw = true <-> raw <> [] /\ forallb isTokenByte raw = true.
Proof.
  unfold isCookieNameValid. rewrite IndexFunc_none.
  case_bool_decide as Hnil.
  - subst raw. split; [discriminate | intros [H _]; congruence].
  - unfold isTokenByte. tauto.
Qed.

Lemma readCookiePart_name (filter part : gostring) (c : Cookie) :
  readCookiePart filter part = Some c -> isCookieNameValid (Name c) = true.
Proof.
  unfold readCookiePart. case_bool_decide; [discriminate|].
  destruct (strings.Cut (textproto.TrimString part) "=") as [[name val] found].
  destruct (isCookieNameValid (textproto.TrimString name)) eqn:Hname;
    simpl; [|discriminate].
  destruct (bool_decide (filter <> []) && bool_decide (filter <> textproto.TrimString name));
    [discriminate|].
  destruct (parseCookieValue val true) as [[v q] ok].
  destruct ok; simpl; [|discriminate].
  intros [= <-]. exact Hname.
Qed.

Lemma cookiesOfLines_names (filter : gostring) (lines : list gostring) :
  Forall (fun c => isCookieNameValid (Name c) = true) (cookiesOfLines filter lines).
Proof.
  unfold cookiesOfLines. apply Forall_concat, Forall_map, Forall_forall.
  intros line _. unfold cookiesOfLine. apply Forall_forall.
  intros c Hc. apply list_elem_of_omap in Hc as (seg & _ & Hseg).
  now apply readCookiePart_name in Hseg.
Qed.

(** C6: [readCookies] returns, and every cookie of the sequence it
    returns has a valid name: [isCookieNameValid] holds of it, that is
    the name is not empty and consists of token bytes only. *)
Theorem readCookies_names_valid (h : Header) (filter : gostring) :
  exists cs, readCookies h filter = Some (mk_slice cs) /\
    Forall (fun c => isCookieNameValid (Name c) = true /\
                     Name c <> [] /\
                     forallb isTokenByte (Name c) = true) cs.
Proof.
  eexists. split; [apply readCookies_segments|].
  eapply Forall_impl; [apply cookiesOfLines_names|].
  intros c Hc. split; [exact Hc|]. now apply isCookieNameValid_token.
Qed.

Lemma header_get_absent (h : Header) (key : string) :
  h !! key = None -> header_get h key = [].
Proof. unfold header_get. now intros ->. Qed.

Lemma cookiesOfLines_all_dropped (filter : gostring) (lines : list gostring) :
  Forall (fun line => Forall (fun seg => readCookiePart filter seg = None)
                        (segments line)) lines ->
  cookiesOfLines filter lines = [].
Proof.
  unfold cookiesOfLines. induction 1 as [|line lines Hline _ IH]; simpl.
  - reflexivity.
  - rewrite IH, app_nil_r. unfold cookiesOfLine.
    induction Hline as [|seg segs Hseg _ IHs]; simpl; [reflexivity|].
    now rewrite Hseg.
Qed.

Lemma cookiesOfLines_In (filter : gostring) (lines : list gostring) (c : Cookie) :
  In c (cookiesOfLines filter lines) <->
  exists line seg, In line lines /\ In seg (segments line) /\
                   readCookiePart filter seg = Some c.
Proof.
  unfold cookiesOfLines, cookiesOfLine. rewrite in_concat. split.
  - intros (cs & Hcs & Hc). apply in_map_iff in Hcs as (line & <- & Hline).
    apply list_elem_of_In, list_elem_of_omap in Hc as (seg & Hseg & Hpart).
    exists line, seg. repeat split; try assumption. now apply list_elem_of_In.
  - intros (line & seg & Hline & Hseg & Hpart).
    exists (omap (readCookiePart filter) (segments line)). split.
    + apply in_map_iff. now exists line.
    + apply list_elem_of_In, list_elem_of_omap. exists seg.
      split; [now apply list_elem_of_In | assumption].
Qed.

(** C5: [readCookies] never fails: for every header and filter it
    returns a non-nil sequence.  Each segment is kept or dropped on its
    own: the result is, line after line and segment after segment, the
    cookie of every segment that passes validation and nothing for a
    segment that fails, so a failing segment never removes the cookie of
    another one.  The sequence is empty when the header has no "Cookie"
    entry and when every segment of every line is dropped, as for the
    lines "" and "; ; ;". *)
Theorem readCookies_never_fails :
  (forall (h : Header) (filter : gostring),
      exists cs, readCookies h filter = Some (mk_slice cs)) /\
  (forall (h : Header) (filter : gostring),
      h !! "Cookie"%string = None -> readCookies h filter = Some (mk_slice [])) /\
  (forall (h : Header) (filter : gostring),
      Forall (fun line => Forall (fun seg => readCookiePart filter seg = None)
                            (segments line)) (header_get h "Cookie") ->
      readCookies h filter = Some (mk_slice [])) /\
  readCookies (cookieHeader [str "; ; ;"]) [] = Some (mk_slice []) /\
  readCookies (cookieHeader [str ""]) [] = Some (mk_slice []) /\
  readCookies (cookieHeader []) [] = Some (mk_slice []) /\
  (forall (h : Header) (filter : gostring),
      readCookies h filter =
        Some (mk_slice
                (concat (map (fun line =>
                                omap (readCookiePart filter) (segments line))
                           (header_get h "Cookie"))))) /\
  (forall (h : Header) (filter : gostring) (cs : list Cookie),
      readCookies h filter = Some (mk_slice cs) ->
      forall c, In c cs <->
        exists line seg, In line (header_get h "Cookie") /\
                         In seg (segments line) /\
                         readCookiePart filter seg = Some c) /\
  readCookies (cookieHeader [str "a=1; =x; b=2;;c=" ++ [DQUOTE]; str "; d=4"]) [] =
    Some (mk_slice [mkCookie (str "a") (str "1") false;
                    mkCookie (str "b") (str "2") false;
                    mkCookie (str "d") (str "4") false]).
Proof.
  split; [|split; [|split]].
  - intros h filter. eexists. apply readCookies_segments.
  - intros h filter Habs. rewrite readCookies_segments.
    now rewrite (header_get_absent _ _ Habs).
  - intros h filter Hall. rewrite readCookies_segments.
    now rewrite (cookiesOfLines_all_dropped _ _ Hall).
  - split; [vm_compute; reflexivity|].
    split; [vm_compute; reflexivity|].
    split; [vm_compute; reflexivity|].
    split; [|split].
    + intros h filter. apply readCookies_segments.
    + intros h filter cs Hcs c. rewrite readCookies_segments in Hcs.
      injection Hcs as <-. apply cookiesOfLines_In.
    + vm_compute. reflexivity.
Qed.

Lemma readCookies_never_fails_witness :
  readCookies ∅ (str "a") = Some (mk_slice []) /\
  readCookies (cookieHeader [str " ;=x; "]) [] = Some (mk_slice []) /\
  (In (mkCookie (str "b") (str "2") false)
      [mkCookie (str "a") (str "1") false; mkCookie (str "b") (str "2") false] <->
   exists line seg,
     In line (header_get (cookieHeader [str "a=1; =x; b=2"]) "Cookie") /\
     In seg (segments line) /\
     readCookiePart [] seg = Some (mkCookie (str "b") (str "2") false)).
Proof.
  split; [|split].
  - apply (proj1 (proj2 readCookies_never_fails) ∅ (str "a")). reflexivity.
  - apply (proj1 (proj2 (proj2 readCookies_never_fails))
             (cookieHeader [str " ;=x; "]) []).
    vm_compute. repeat constructor.
  - apply (proj1 (proj2 (proj2 (proj2 (proj2 (proj2 (proj2 (proj2
             readCookies_never_fails)))))))
             (cookieHeader [str "a=1; =x; b=2"]) []).
    vm_compute. reflexivity.
Defined.

Lemma readCookiePart_filter (filter part : gostring) :
  filter <> [] ->
  readCookiePart filter part =
    match readCookiePart [] part with
    | Some c => if bool_decide (Name c = filter) then Some c else None
    | None => None
    end.
Proof.
  intros Hf. unfold readCookiePart. case_bool_decide; [reflexivity|].
  destruct (strings.Cut (textproto.TrimString part) "=") as [[name val] found].
  destruct (isCookieNameValid (textproto.TrimString name)); simpl; [|reflexivity].
  rewrite (bool_decide_eq_true_2 (filter <> [])) by assumption.
  simpl.
  destruct (parseCookieValue val true) as [[v q] ok].
  destruct ok; simpl.
  - repeat case_bool_decide; simpl; congruence.
  - now case_bool_decide.
Qed.

Lemma cookiesOfLine_filter (filter line : gostring) :
  filter <> [] ->
  cookiesOfLine filter line =
    List.filter (fun c => bool_decide (Name c = filter)) (cookiesOfLine [] line).
Proof.
  intros Hf. unfold cookiesOfLine.
  induction (segments line) as [|seg segs IH]; simpl; [reflexivity|].
  rewrite (readCookiePart_filter _ _ Hf).
  destruct (readCookiePart [] seg) as [c|]; simpl; [|exact IH].
  destruct (bool_decide (Name c = filter)); [f_equal|]; exact IH.
Qed.

Lemma cookiesOfLines_filter (filter : gostring) (lines : list gostring) :
  filter <> [] ->
  cookiesOfLines filter lines =
    List.filter (fun c => bool_decide (Name c = filter)) (cookiesOfLines [] lines).
Proof.
  intros Hf. unfold cookiesOfLines.
  induction lines as [|line lines IH]; simpl; [reflexivity|].
  now rewrite List.filter_app, IH, (cookiesOfLine_filter _ _ Hf).
Qed.

(** C8: [readCookies] returns the cookies of the surviving segments, one
    per segment, line after line and in each line in the order of the
    segments; nothing is deduplicated; with a non-empty [filter] the
    result is the unfiltered result restricted to the cookies named
    [filter]. *)
Theorem readCookies_in_order (h : Header) (filter : gostring) :
  readCookies h filter =
    Some (mk_slice (concat (map (fun line => omap (readCookiePart filter) (segments line))
                              (header_get h "Cookie")))) /\
  readCookies h filter =
    (if bool_decide (filter = []) then readCookies h []
     else (fun s => mk_slice (List.filter (fun c => bool_decide (Name c = filter))
                                (elems_of s))) <$> readCookies h []) /\
  readCookies (cookieHeader [str "a=1; b=2; a=1"; str "a=3"]) [] =
    Some (mk_slice [mkCookie (str "a") (str "1") false;
                    mkCookie (str "b") (str "2") false;
                    mkCookie (str "a") (str "1") false;
                    mkCookie (str "a") (str "3") false]) /\
  readCookies (cookieHeader [str "a=1; b=2; a=1"; str "a=3"]) (str "a") =
    Some (mk_slice [mkCookie (str "a") (str "1") false;
                    mkCookie (str "a") (str "1") false;
                    mkCookie (str "a") (str "3") false]).
Proof.
  split; [apply readCookies_segments|]. split.
  - case_bool_decide as Hf; [now subst filter|].
    rewrite !readCookies_segments. simpl.
    now rewrite (cookiesOfLines_filter _ _ Hf).
  - split; vm_compute; reflexivity.
Qed.

(** ** Cookie values *)

Lemma validCookieValueByte_octet (b : ascii) :
  validCookieValueByte b = true <-> valueOctet b.
Proof.
  unfold validCookieValueByte, valueOctet.
  rewrite !andb_true_iff, !negb_true_iff, N.leb_le, N.ltb_lt.
  rewrite !Ascii.eqb_neq. split.
  - intros [[[[H1 H2] H3] H4] H5]. repeat split; try assumption. lia.
  - intros [[H1 H2] [H3 [H4 H5]]]. repeat split; try assumption. lia.
Qed.

Lemma allValidCookieValueBytes_octets (raw : gostring) :
  allValidCookieValueBytes raw = true <-> Forall valueOctet raw.
Proof.
  induction raw as [|b raw IH]; simpl.
  - split; [constructor | reflexivity].
  - rewrite Forall_cons, <- IH, <- validCookieValueByte_octet.
    destruct (validCookieValueByte b); simpl; intuition congruence.
Qed.

Lemma last_byte_snoc (s : gostring) (b : ascii) : last_byte (s ++ [b]) = b.
Proof. unfold last_byte. apply List.last_last. Qed.

Lemma parseCookieValue_quoted (body : gostring) :
  parseCookieValue (DQUOTE :: body ++ [DQUOTE]) true =
    if allValidCookieValueBytes body then (body, true, true) else ([], true, false).
Proof.
  unfold parseCookieValue.
  change (DQUOTE :: body ++ [DQUOTE]) with ((DQUOTE :: body) ++ [DQUOTE]).
  rewrite last_byte_snoc.
  change ((DQUOTE :: body) ++ [DQUOTE]) with (DQUOTE :: body ++ [DQUOTE]).
  cbn [hd length drop]. rewrite Ascii.eqb_refl.
  rewrite length_app. simpl length.
  replace (1 <? S (length body + 1))%nat with true
    by (symmetry; apply Nat.ltb_lt; lia).
  cbn [andb]. replace (S (length body + 1) - 2) with (length body) by lia.
  rewrite drop_0, take_app_length. reflexivity.
Qed.

Lemma quoted_shape (raw : gostring) :
  (1 <? length raw)%nat && Ascii.eqb (List.hd "000" raw) DQUOTE
    && Ascii.eqb (last_byte raw) DQUOTE = true ->
  exists body, raw = DQUOTE :: body ++ [DQUOTE].
Proof.
  rewrite !andb_true_iff, Nat.ltb_lt, !Ascii.eqb_eq.
  intros [[Hlen Hhd] Hlast].
  destruct raw as [|c raw]; [simpl in Hlen; lia|].
  simpl in Hhd. subst c.
  destruct raw as [|x raw _] using rev_ind; [simpl in Hlen; lia|].
  exists raw. f_equal.
  change (DQUOTE :: raw ++ [x]) with ((DQUOTE :: raw) ++ [x]) in Hlast.
  rewrite last_byte_snoc in Hlast. now subst x.
Qed.

Lemma parseCookieValue_plain (raw : gostring) :
  (forall body, raw <> DQUOTE :: body ++ [DQUOTE]) ->
  parseCookieValue raw true =
    if allValidCookieValueBytes raw then (raw, false, true) else ([], false, false).
Proof.
  intros Hno. unfold parseCookieValue. cbn [andb].
  destruct ((1 <? length raw)%nat && Ascii.eqb (List.hd "000" raw) DQUOTE
            && Ascii.eqb (last_byte raw) DQUOTE) eqn:E; [|reflexivity].
  apply quoted_shape in E as [body ->]. now destruct (Hno body).
Qed.

Lemma Unquoted_total (raw : gostring) :
  exists body quoted, Unquoted raw body quoted.
Proof.
  destruct ((1 <? length raw)%nat && Ascii.eqb (List.hd "000" raw) DQUOTE
            && Ascii.eqb (last_byte raw) DQUOTE) eqn:E.
  - apply quoted_shape in E as [body ->]. exists body, true. constructor.
  - exists raw, false. constructor. intros body ->.
    change (DQUOTE :: body ++ [DQUOTE]) with ((DQUOTE :: body) ++ [DQUOTE]) in E.
    rewrite last_byte_snoc in E. simpl in E.
    rewrite length_app in E. simpl in E.
    replace (1 <? S (length body + 1))%nat with true in E
      by (symmetry; apply Nat.ltb_lt; lia).
    discriminate.
Qed.

Lemma Unquoted_functional (raw body body' : gostring) (quoted quoted' : bool) :
  Unquoted raw body quoted -> Unquoted raw body' quoted' ->
  body = body' /\ quoted = quoted'.
Proof.
  intros H H'. destruct H as [b|r Hr]; inversion H' as [b' Hb'|r' Hr' Hb']; subst.
  - split; [|reflexivity]. symmetry. now apply app_inv_tail in Hb'.
  - exfalso. now apply (Hr' b).
  - exfalso. now apply (Hr body').
  - now split.
Qed.

Lemma parseCookieValue_unquoted (raw body : gostring) (quoted : bool) :
  Unquoted raw body quoted ->
  parseCookieValue raw true =
    if allValidCookieValueBytes body then (body, quoted, true) else ([], quoted, false).
Proof.
  intros [b|r Hr]; [apply parseCookieValue_quoted | now apply parseCookieValue_plain].
Qed.

Lemma readCookiePart_spec (filter part : gostring) (c : Cookie) :
  readCookiePart filter part = Some c <->
  exists name val found,
    textproto.TrimString part <> [] /\
    strings.Cut (textproto.TrimString part) "=" = (name, val, found) /\
    Name c = textproto.TrimString name /\
    isCookieNameValid (Name c) = true /\
    (filter = [] \/ filter = Name c) /\
    Unquoted val (Value c) (Quoted c) /\
    Forall valueOctet (Value c).
Proof.
  unfold readCookiePart. split.
  - case_bool_decide as Hpart; [discriminate|].
    destruct (strings.Cut (textproto.TrimString part) "=")
      as [[name val] found] eqn:Ecut.
    destruct (isCookieNameValid (textproto.TrimString name)) eqn:Hname;
      simpl; [|discriminate].
    destruct (bool_decide (filter <> [])
              && bool_decide (filter <> textproto.TrimString name)) eqn:Hf;
      [discriminate|].
    destruct (Unquoted_total val) as (body & quoted & Hu).
    rewrite (parseCookieValue_unquoted _ _ _ Hu).
    destruct (allValidCookieValueBytes body) eqn:Hval; simpl; [|discriminate].
    intros [= <-]. simpl. exists name, val, found.
    repeat split; try assumption.
    + apply andb_false_iff in Hf as [Hf|Hf];
        apply bool_decide_eq_false in Hf.
      * left. destruct (decide (filter = [])); [assumption | contradiction].
      * right.
        destruct (decide (filter = textproto.TrimString name));
          [assumption | contradiction].
    + now apply allValidCookieValueBytes_octets.
  - intros (name & val & found & Hpart & Ecut & Hn & Hvalid & Hf & Hu & Hoct).
    rewrite bool_decide_eq_false_2 by assumption.
    rewrite Ecut, <- Hn, Hvalid. simpl.
    replace (bool_decide (filter <> []) && bool_decide (filter <> Name c))
      with false.
    2:{ symmetry. apply andb_false_iff.
        destruct Hf as [Hf|Hf]; [left|right];
          apply bool_decide_eq_false; intros Hc; now apply Hc. }
    rewrite (parseCookieValue_unquoted _ _ _ Hu).
    apply allValidCookieValueBytes_octets in Hoct. rewrite Hoct. simpl.
    destruct c as [n v q]. simpl in *. reflexivity.
Qed.

(** C3 (amended): [readCookies] returns a cookie exactly for the
    segments of the header lines whose name is valid and passes the
    filter and whose value part, once its enclosing double quotes (if
    any) are stripped and recorded in [Quoted], has all its bytes in
    0x20-0x7E and none equal to DQUOTE, ';' or '\'; a segment with a byte
    outside that range yields no cookie. *)
Theorem readCookies_value_parsing :
  (forall (h : Header) (filter : gostring),
      exists cs, readCookies h filter = Some (mk_slice cs) /\
        forall c, In c cs <->
          exists line seg name val found,
            In line (header_get h "Cookie") /\ In seg (segments line) /\
            textproto.TrimString seg <> [] /\
            strings.Cut (textproto.TrimString seg) "=" = (name, val, found) /\
            Name c = textproto.TrimString name /\
            isCookieNameValid (Name c) = true /\
            (filter = [] \/ filter = Name c) /\
            Unquoted val (Value c) (Quoted c) /\
            Forall valueOctet (Value c)) /\
  (forall (filter seg name val body : gostring) (found quoted : bool),
      strings.Cut (textproto.TrimString seg) "=" = (name, val, found) ->
      Unquoted val body quoted ->
      ~ Forall valueOctet body ->
      readCookiePart filter seg = None).
Proof.
  split.
  - intros h filter. eexists. split; [apply readCookies_segments|].
    intros c. rewrite cookiesOfLines_In. split.
    + intros (line & seg & Hline & Hseg & Hpart).
      apply readCookiePart_spec in Hpart
        as (name & val & found & H1 & H2 & H3 & H4 & H5 & H6 & H7).
      exists line, seg, name, val, found. repeat split; assumption.
    + intros (line & seg & name & val & found & Hline & Hseg & H).
      exists line, seg. repeat split; try assumption.
      apply readCookiePart_spec. now exists name, val, found.
  - intros filter part name val body found quoted Ecut Hu Hbad.
    unfold readCookiePart. case_bool_decide; [reflexivity|].
    rewrite Ecut.
    destruct (isCookieNameValid (textproto.TrimString name)); simpl; [|reflexivity].
    destruct (bool_decide (filter <> [])
              && bool_decide (filter <> textproto.TrimString name)); [reflexivity|].
    rewrite (parseCookieValue_unquoted _ _ _ Hu).
    destruct (allValidCookieValueBytes body) eqn:Hval; [|reflexivity].
    apply allValidCookieValueBytes_octets in Hval. contradiction.
Qed.

Lemma readCookies_value_parsing_witness :
  readCookiePart [] (str "a=b\c") = None.
Proof.
  apply (proj2 readCookies_value_parsing
           [] (str "a=b\c") (str "a") (str "b\c") (str "b\c") true false).
  - vm_compute. reflexivity.
  - constructor. intros body H. discriminate H.
  - intros H. inversion H as [|b1 l1 _ H1]; subst.
    inversion H1 as [|b2 l2 (_ & _ & _ & Hbs) _]; subst.
    now apply Hbs.
Defined.

(** C3 as worded fails: the space (0x20) lies outside 0x21-0x7E, yet the
    segment [a=b c] yields a cookie whose value holds it. *)
Lemma readCookies_keeps_space :
  readCookies (cookieHeader [str "a=b c"]) [] =
    Some (mk_slice [mkCookie (str "a") (str "b c") false]) /\
  ~ Forall cookieOctet (str "b c").
Proof.
  split; [vm_compute; reflexivity|].
  intros H. inversion H as [|b1 l1 _ H1]; subst.
  inversion H1 as [|b2 l2 [[Hlo _] _] _]; subst.
  vm_compute in Hlo. now apply Hlo.
Qed.

(** ** Cookie domains *)

Lemma letter_not_digit (c : ascii) : isLetter c = true -> net.isDigit c = false.
Proof. byte_cases c. Qed.

Lemma letter_not_hyphen (c : ascii) : isLetter c = true -> c <> "-".
Proof. byte_cases c. Qed.

Lemma digit_not_hyphen (c : ascii) : net.isDigit c = true -> c <> "-".
Proof. byte_cases c. Qed.

Lemma LDH_not_dot (c : ascii) : isLDH c -> c <> ".".
Proof.
  intros [H|[H| ->]]; [ | |discriminate]; intros ->; vm_compute in H; discriminate.
Qed.

Lemma dnLoop_snoc (st : dnState) (s : gostring) (c : ascii) :
  dnLoop st (s ++ [c]) =
    match dnLoop st s with
    | Some st' => dnStep st' c
    | None => None
    end.
Proof.
  revert st. induction s as [|x s IH]; intros st; simpl.
  - now destruct (dnStep st c).
  - destruct (dnStep st x); [apply IH | reflexivity].
Qed.

Lemma dotted_snoc (done : list gostring) (l : gostring) :
  dotted (done ++ [l]) = dotted done ++ l ++ ["."].
Proof.
  unfold dotted. rewrite map_app, concat_app. simpl. now rewrite app_nil_r.
Qed.

Lemma hd_snoc (cur : gostring) (c d : ascii) :
  cur <> [] -> List.hd d (cur ++ [c]) = List.hd d cur.
Proof. destruct cur; [congruence | reflexivity]. Qed.

Lemma last_in (cur : gostring) (d : ascii) :
  cur <> [] -> In (List.last cur d) cur.
Proof.
  destruct cur as [|x cur _] using rev_ind; [congruence|].
  intros _. rewrite List.last_last. apply in_or_app. right. now left.
Qed.

Lemma last_LDH_not_dot (cur : gostring) :
  cur <> [] -> Forall isLDH cur -> List.last cur "." <> ".".
Proof.
  intros Hne Hall. apply LDH_not_dot.
  rewrite Forall_forall in Hall. apply Hall, list_elem_of_In. now apply last_in.
Qed.

Lemma last_dot_nil (cur : gostring) :
  Forall isLDH cur -> List.last cur "." = "." -> cur = [].
Proof.
  intros Hall Hlast. destruct cur as [|x cur]; [reflexivity|].
  exfalso. now apply (last_LDH_not_dot (x :: cur)).
Qed.

Lemma dnStep_extend (s cur : gostring) (c : ascii) :
  isLDH c -> Forall isLDH cur ->
  List.hd "." (cur ++ [c]) <> "-" ->
  dnStep (mkDn (List.last cur ".") (existsb isLetter s) (length cur)) c =
    Some (mkDn (List.last (cur ++ [c]) ".") (existsb isLetter (s ++ [c]))
            (length (cur ++ [c]))).
Proof.
  intros Hc Hcur Hhd. unfold dnStep. simpl.
  rewrite List.last_last, existsb_app, length_app. simpl.
  rewrite orb_false_r, Nat.add_1_r.
  destruct (isLetter c) eqn:El.
  { now rewrite orb_true_r. }
  rewrite orb_false_r.
  destruct (net.isDigit c) eqn:Ed; [reflexivity|].
  destruct Hc as [Hc|[Hc| ->]]; [congruence|congruence|].
  rewrite Ascii.eqb_refl.
  destruct (Ascii.eqb_spec (List.last cur ".") ".") as [Hdot|_]; [|reflexivity].
  apply last_dot_nil in Hdot; [|assumption]. subst cur. now destruct Hhd.
Qed.

Lemma dnStep_dot (s l : gostring) :
  Label l ->
  dnStep (mkDn (List.last l ".") (existsb isLetter s) (length l)) "." =
    Some (mkDn "." (existsb isLetter (s ++ ["."])) 0).
Proof.
  intros (Hlen & Hall & Hhd & Hlast). unfold dnStep. simpl.
  change (isLetter ".") with false. change (net.isDigit ".") with false.
  cbv iota.
  assert (Hne : l <> []) by (intros ->; simpl in Hlen; lia).
  rewrite (proj2 (Ascii.eqb_neq _ _) (last_LDH_not_dot l Hne Hall)).
  rewrite (proj2 (Ascii.eqb_neq _ _) Hlast). simpl.
  replace (63 <? length l)%nat with false by (symmetry; apply Nat.ltb_ge; lia).
  replace (length l =? 0)%nat with false by (symmetry; apply Nat.eqb_neq; lia).
  simpl. rewrite existsb_app. simpl. change (isLetter ".") with false.
  now rewrite !orb_false_r.
Qed.

Lemma dnStep_inv (s : gostring) (st0 st : dnState) (c : ascii) :
  dnInv s st0 -> dnStep st0 c = Some st -> dnInv (s ++ [c]) st.
Proof.
  intros (done & cur & Hs & Hdone & Hcur & Hhd & ->) Hstep.
  unfold dnStep in Hstep. simpl in Hstep.
  assert (Hext : forall (Hc : isLDH c) (Hh : List.hd "." (cur ++ [c]) <> "-"),
             dnInv (s ++ [c])
               (mkDn (List.last (cur ++ [c]) ".") (existsb isLetter (s ++ [c]))
                  (length (cur ++ [c])))).
  { intros Hc Hh. exists done, (cur ++ [c]). repeat split; try assumption.
    - rewrite Hs. now rewrite app_assoc.
    - apply Forall_app. split; [assumption|]. now constructor. }
  assert (Hhd' : c <> "-" \/ cur <> [] -> List.hd "." (cur ++ [c]) <> "-").
  { intros [Hc|Hc].
    - destruct cur; [exact Hc | exact Hhd].
    - now rewrite hd_snoc. }
  destruct (isLetter c) eqn:El.
  { pose proof (dnStep_extend s cur c (or_introl El) Hcur
                  (Hhd' (or_introl (letter_not_hyphen c El)))) as Hd.
    unfold dnStep in Hd. simpl in Hd. rewrite El in Hd.
    rewrite Hd in Hstep. injection Hstep as <-.
    apply Hext; [now left | apply Hhd'; left; now apply letter_not_hyphen]. }
  destruct (net.isDigit c) eqn:Ed.
  { pose proof (dnStep_extend s cur c (or_intror (or_introl Ed)) Hcur
                  (Hhd' (or_introl (digit_not_hyphen c Ed)))) as Hd.
    unfold dnStep in Hd. simpl in Hd. rewrite El, Ed in Hd.
    rewrite Hd in Hstep. injection Hstep as <-.
    apply Hext; [right; now left | apply Hhd'; left; now apply digit_not_hyphen]. }
  destruct (Ascii.eqb_spec c "-") as [->|Hnh].
  { destruct (Ascii.eqb_spec (List.last cur ".") ".") as [|Hnd]; [discriminate|].
    assert (Hne : cur <> []) by (intros ->; now apply Hnd).
    pose proof (dnStep_extend s cur "-" (or_intror (or_intror eq_refl)) Hcur
                  (Hhd' (or_intror Hne))) as Hd.
    unfold dnStep in Hd. simpl in Hd.
    rewrite (proj2 (Ascii.eqb_neq _ _) Hnd) in Hd.
    rewrite Hd in Hstep. injection Hstep as <-.
    apply Hext; [right; now right | apply Hhd'; now right]. }
  destruct (Ascii.eqb_spec c ".") as [->|]; [|discriminate].
  destruct (Ascii.eqb_spec (List.last cur ".") ".") as [|Hnd]; [discriminate|].
  destruct (Ascii.eqb_spec (List.last cur ".") "-") as [|Hnh']; [discriminate|].
  simpl in Hstep.
  destruct (Nat.ltb_spec 63 (length cur)); [discriminate|].
  destruct (Nat.eqb_spec (length cur) 0); [discriminate|].
  simpl in Hstep. injection Hstep as <-.
  exists (done ++ [cur]), []. repeat split.
  - rewrite dotted_snoc, Hs, app_nil_r. now rewrite <- app_assoc.
  - apply Forall_app. split; [assumption|]. constructor; [|constructor].
    repeat split; try assumption; lia.
  - constructor.
  - discriminate.
  - simpl. f_equal. rewrite existsb_app. simpl. now rewrite !orb_false_r.
Qed.

Lemma dotted_nonempty_last (done : list gostring) (s : gostring) (c : ascii) :
  s ++ [c] = dotted done ->
  exists done' l, done = done' ++ [l] /\ s = dotted done' ++ l /\ c = ".".
Proof.
  destruct done as [|l done' _] using rev_ind.
  - intros H. now destruct s.
  - rewrite dotted_snoc, app_assoc. intros H.
    apply app_inj_tail in H as [-> ->]. now exists done', l.
Qed.

Lemma dnLoop_dnInv (s : gostring) (st : dnState) :
  dnLoop (mkDn "." false 0) s = Some st <-> dnInv s st.
Proof.
  revert st. induction s as [|c s IH] using rev_ind; intros st.
  - simpl. split.
    + intros [= <-]. exists [], []. repeat split; try constructor. discriminate.
    + intros (done & cur & Hs & _ & _ & _ & ->).
      symmetry in Hs. apply app_eq_nil in Hs as [_ ->]. reflexivity.
  - rewrite dnLoop_snoc. split.
    + destruct (dnLoop (mkDn "." false 0) s) as [st0|] eqn:E; [|discriminate].
      intros Hstep. apply (dnStep_inv s st0); [|assumption]. now apply IH.
    + intros (done & cur & Hs & Hdone & Hcur & Hhd & ->).
      destruct cur as [|x cur _] using rev_ind.
      * rewrite app_nil_r in Hs.
        apply dotted_nonempty_last in Hs as (done' & l & -> & Hs' & ->).
        apply Forall_app in Hdone as [Hdone' Hl].
        apply Forall_cons in Hl as [Hl _].
        assert (Hloop : dnLoop (mkDn "." false 0) s =
                        Some (mkDn (List.last l ".") (existsb isLetter s) (length l))).
        { apply IH. exists done', l. destruct Hl as (? & ? & ? & ?).
          repeat split; assumption. }
        rewrite Hloop. now apply dnStep_dot.
      * rewrite app_assoc in Hs. apply app_inj_tail in Hs as [-> ->].
        apply Forall_app in Hcur as [Hcur Hx].
        apply Forall_cons in Hx as [Hx _].
        assert (Hloop : dnLoop (mkDn "." false 0) (dotted done ++ cur) =
                        Some (mkDn (List.last cur ".")
                                (existsb isLetter (dotted done ++ cur)) (length cur))).
        { apply IH. exists done, cur. repeat split; try assumption.
          destruct cur as [|y cur]; [discriminate | exact Hhd]. }
        rewrite Hloop. now apply dnStep_extend.
Qed.

Lemma joinDots_snoc (done : list gostring) (cur : gostring) :
  joinDots (done ++ [cur]) = dotted done ++ cur.
Proof.
  induction done as [|l done IH]; [reflexivity|].
  change (dotted (l :: done)) with ((l ++ ["."]) ++ dotted done).
  rewrite <- !app_assoc. simpl app at 3. rewrite <- IH.
  simpl. destruct (done ++ [cur]) eqn:E; [|reflexivity].
  now destruct done.
Qed.

Lemma joinDots_dotted (done : list gostring) :
  done <> [] -> dotted done = joinDots done ++ ["."].
Proof.
  destruct done as [|l done _] using rev_ind; [congruence|].
  intros _. rewrite dotted_snoc, joinDots_snoc. now rewrite app_assoc.
Qed.

Lemma existsb_letter_Exists (s : gostring) :
  existsb isLetter s = true <-> Exists (fun c => isLetter c = true) s.
Proof.
  rewrite existsb_exists, Exists_exists.
  split; intros (c & Hin & Hc); exists c; split; try assumption;
    now apply list_elem_of_In.
Qed.

(** The string the loop of [isCookieDomainName] reads: [v] without its
    leading dot, if it has one. *)
Lemma strip_lead (v : gostring) :
  v = optDot (Ascii.eqb (List.hd "000" v) ".")
      ++ (if Ascii.eqb (List.hd "000" v) "." then drop 1 v else v).
Proof.
  destruct v as [|c v]; [reflexivity|]. simpl.
  destruct (Ascii.eqb_spec c ".") as [->|]; reflexivity.
Qed.

Lemma isCookieDomainName_grammar (v : gostring) :
  isCookieDomainName v = true <-> CookieDomainName v.
Proof.
  unfold isCookieDomainName, CookieDomainName. split.
  - destruct (Nat.eqb_spec (length v) 0) as [|Hne]; [discriminate|].
    destruct (Nat.ltb_spec 255 (length v)) as [|Hle]; [discriminate|].
    pose proof (strip_lead v) as Hv.
    set (lead := Ascii.eqb (List.hd "000" v) ".") in *.
    set (s := if lead then drop 1 v else v) in *.
    destruct (dnLoop (mkDn "." false 0) s) as [st|] eqn:E; [|discriminate].
    apply dnLoop_dnInv in E as (done & cur & Hs & Hdone & Hcur & Hhd & ->).
    simpl.
    destruct (Ascii.eqb_spec (List.last cur ".") "-") as [|Hlast]; [discriminate|].
    destruct (Nat.ltb_spec 63 (length cur)) as [|Hlen]; [discriminate|].
    simpl. intros Hok. split; [assumption|]. split.
    { rewrite Hv. apply Exists_app. right. now apply existsb_letter_Exists. }
    destruct cur as [|x cur].
    + exists lead, true, done.
      assert (Hd : done <> []).
      { intros ->. rewrite Hs in Hok. discriminate. }
      repeat split; try assumption.
      rewrite Hv, Hs, app_nil_r. now rewrite joinDots_dotted.
    + exists lead, false, (done ++ [x :: cur]). repeat split.
      * now destruct done.
      * apply Forall_app. split; [assumption|].
        constructor; [|constructor]. repeat split; try assumption.
        simpl. lia.
      * rewrite Hv, Hs, joinDots_snoc. simpl optDot at 2. now rewrite app_nil_r.
  - intros (Hle & Hletter & lead & trail & labels & Hne & Hlabels & Hv).
    assert (Hfirst : exists x rest, joinDots labels ++ optDot trail = x :: rest
                                    /\ x <> ".").
    { destruct labels as [|l labels]; [congruence|].
      apply Forall_cons in Hlabels as [(Hlen & Hall & _) _].
      destruct l as [|x l]; [simpl in Hlen; lia|].
      apply Forall_cons in Hall as [Hx _].
      exists x. destruct labels; simpl; eexists; (split; [reflexivity|]);
        now apply LDH_not_dot. }
    destruct Hfirst as (x & rest & Hjoin & Hx).
    assert (Hs : (if Ascii.eqb (List.hd "000" v) "." then drop 1 v else v)
                 = joinDots labels ++ optDot trail).
    { rewrite Hv. destruct lead; simpl.
      - now rewrite drop_0.
      - rewrite Hjoin. simpl.
        now rewrite (proj2 (Ascii.eqb_neq _ _) Hx). }
    rewrite Hs.
    replace (length v =? 0)%nat with false.
    2:{ symmetry. apply Nat.eqb_neq. rewrite Hv, Hjoin. destruct lead;
        simpl; rewrite ?length_app; simpl; lia. }
    replace (255 <? length v)%nat with false
      by (symmetry; apply Nat.ltb_ge; lia).
    assert (Hok : existsb isLetter (joinDots labels ++ optDot trail) = true).
    { apply existsb_letter_Exists. rewrite Hv in Hletter.
      apply Exists_app in Hletter as [Hl|Hl]; [|assumption].
      destruct lead; simpl in Hl; inversion Hl as [? ? Hd|? ? Hd]; subst.
      - vm_compute in Hd. discriminate.
      - inversion Hd. }
    destruct trail.
    + assert (Hloop : dnLoop (mkDn "." false 0) (joinDots labels ++ optDot true) =
                      Some (mkDn "." (existsb isLetter (joinDots labels ++ optDot true)) 0)).
      { apply dnLoop_dnInv. exists labels, []. repeat split; try assumption.
        - simpl optDot. now rewrite app_nil_r, joinDots_dotted.
        - constructor.
        - discriminate. }
      rewrite Hloop. simpl dn_last. simpl dn_partlen. simpl dn_ok.
      exact Hok.
    + destruct labels as [|cur done _] using rev_ind; [congruence|].
      apply Forall_app in Hlabels as [Hdone Hcur].
      apply Forall_cons in Hcur as [(Hlen & Hall & Hhd & Hlast) _].
      assert (Hloop : dnLoop (mkDn "." false 0) (joinDots (done ++ [cur]) ++ optDot false) =
                      Some (mkDn (List.last cur ".")
                              (existsb isLetter (joinDots (done ++ [cur]) ++ optDot false))
                              (length cur))).
      { apply dnLoop_dnInv. exists done, cur. repeat split; try assumption.
        simpl optDot. now rewrite app_nil_r, joinDots_snoc. }
      rewrite Hloop. simpl dn_last. simpl dn_partlen. simpl dn_ok.
      rewrite (proj2 (Ascii.eqb_neq _ _) Hlast).
      replace (63 <? length cur)%nat with false
        by (symmetry; apply Nat.ltb_ge; lia).
      exact Hok.
Qed.

(** ** Dotted-decimal literals *)

Lemma digit_value_le (c : ascii) :
  net.isDigit c = true -> (code c - code "0" <= 9)%N.
Proof. byte_cases c. Qed.

Lemma digit_value_zero (c : ascii) :
  net.isDigit c = true -> (code c - code "0")%N = 0%N -> c = "0".
Proof. byte_cases c. Qed.

Lemma digit_not_dot (c : ascii) : net.isDigit c = true -> c <> ".".
Proof. byte_cases c. Qed.

Lemma digit_not_colon (c : ascii) : net.isDigit c = true -> Ascii.eqb c ":" = false.
Proof. byte_cases c. Qed.

Lemma digit_not_percent (c : ascii) : net.isDigit c = true -> Ascii.eqb c "%" = false.
Proof. byte_cases c. Qed.

Lemma decimalFrom_cons (acc : N) (d : ascii) (ds : gostring) :
  decimalFrom acc (d :: ds) = decimalFrom (acc * 10 + (code d - code "0"))%N ds.
Proof. reflexivity. Qed.

Lemma decimalFrom_ge (ds : gostring) (acc : N) : (acc <= decimalFrom acc ds)%N.
Proof.
  revert acc. induction ds as [|d ds IH]; intros acc; [cbn; lia|].
  rewrite decimalFrom_cons. etransitivity; [|apply IH]. lia.
Qed.

Lemma v4_dot (p : ascii) (rest : gostring) (val : N) (pos digLen : nat)
    (fields : list N) :
  net.isDigit p = true -> rest <> [] -> pos <> 3 ->
  net.parseIPv4Loop (Some p) ("." :: rest) (net.mkV4 val pos digLen fields) =
  net.parseIPv4Loop (Some ".") rest
    (net.mkV4 0 (S pos) 0 (<[pos := val]> fields)).
Proof.
  intros Hp Hrest Hpos. cbn [net.parseIPv4Loop].
  change (net.isDigit ".") with false. cbv iota. rewrite Ascii.eqb_refl.
  rewrite (bool_decide_eq_false_2 (Some p = None)) by discriminate.
  rewrite (bool_decide_eq_false_2 (rest = [])) by assumption.
  rewrite (bool_decide_eq_false_2 (Some p = Some ".")).
  2:{ intros [= ->]. vm_compute in Hp. discriminate. }
  simpl. now rewrite (proj2 (Nat.eqb_neq pos 3) Hpos).
Qed.

Lemma v4_run (ds rest : gostring) (p : ascii) (val : N) (pos digLen : nat)
    (fields : list N) :
  net.isDigit p = true ->
  Forall (fun c => net.isDigit c = true) ds ->
  1 <= digLen ->
  (digLen = 1 -> val = 0%N -> ds = []) ->
  (decimalFrom val ds <= 255)%N ->
  exists p', net.isDigit p' = true /\
    net.parseIPv4Loop (Some p) (ds ++ rest) (net.mkV4 val pos digLen fields) =
    net.parseIPv4Loop (Some p') rest
      (net.mkV4 (decimalFrom val ds) pos (digLen + length ds) fields).
Proof.
  revert p val digLen.
  induction ds as [|c ds IH]; intros p val digLen Hp Hds Hlen Hzero Hval.
  - exists p. split; [assumption|]. simpl. now rewrite Nat.add_0_r.
  - apply Forall_cons in Hds as [Hc Hds]. rewrite decimalFrom_cons in Hval.
    destruct (IH c (val * 10 + (code c - code "0"))%N (S digLen) Hc Hds
                ltac:(lia) ltac:(lia) Hval) as (p' & Hp' & Heq).
    exists p'. split; [assumption|].
    cbn [app net.parseIPv4Loop]. rewrite Hc. simpl net.v4_digLen. simpl net.v4_val.
    replace ((digLen =? 1)%nat && (val =? 0)%N) with false.
    2:{ symmetry. apply andb_false_iff.
        destruct (Nat.eqb_spec digLen 1) as [H1|]; [|now left]. right.
        apply N.eqb_neq. intros H0. now specialize (Hzero H1 H0). }
    pose proof (decimalFrom_ge ds (val * 10 + (code c - code "0"))%N) as Hge.
    replace (255 <? val * 10 + (code c - code "0"))%N with false
      by (symmetry; apply N.ltb_ge; lia).
    simpl net.v4_pos. simpl net.v4_fields. rewrite Heq. simpl length.
    now replace (S digLen + length ds) with (digLen + S (length ds)) by lia.
Qed.

Lemma v4_octet (ds rest : gostring) (prev : option ascii) (pos : nat)
    (fields : list N) :
  Octet ds ->
  exists p', net.isDigit p' = true /\
    net.parseIPv4Loop prev (ds ++ rest) (net.mkV4 0 pos 0 fields) =
    net.parseIPv4Loop (Some p') rest
      (net.mkV4 (decimalFrom 0 ds) pos (length ds) fields).
Proof.
  intros (Hne & Hds & Hlead & Hval).
  destruct ds as [|c ds]; [congruence|].
  apply Forall_cons in Hds as [Hc Hds]. rewrite decimalFrom_cons in Hval.
  rewrite N.mul_0_l, N.add_0_l in Hval.
  pose proof (digit_value_le c Hc) as Hd.
  destruct (v4_run ds rest c (code c - code "0")%N pos 1 fields Hc Hds
              ltac:(lia)) as (p' & Hp' & Heq).
  { intros _ H0. apply digit_value_zero in H0; [|assumption]. subst c.
    specialize (Hlead eq_refl). simpl in Hlead. now destruct ds. }
  { exact Hval. }
  exists p'. split; [assumption|].
  rewrite decimalFrom_cons, N.mul_0_l, N.add_0_l.
  cbn [app net.parseIPv4Loop]. rewrite Hc.
  cbn [net.v4_digLen net.v4_val net.v4_pos net.v4_fields Nat.eqb andb].
  rewrite N.mul_0_l, N.add_0_l.
  replace (255 <? code c - code "0")%N with false
    by (symmetry; apply N.ltb_ge; lia).
  exact Heq.
Qed.

Lemma IPv4Literal_parses (v : gostring) :
  IPv4Literal v -> exists f, net.parseIPv4Fields v = Some f.
Proof.
  intros (a & b & c & d & Ha & Hb & Hc & Hd & ->).
  assert (Hnil : forall (o : gostring) r, Octet o -> o ++ r <> []).
  { intros o r (Ho & _) E. apply app_eq_nil in E as [E _]. contradiction. }
  unfold net.parseIPv4Fields.
  destruct (v4_octet a ("." :: b ++ "." :: c ++ "." :: d) None 0 [0;0;0;0]%N Ha)
    as (pa & Hpa & ->).
  rewrite v4_dot; [|assumption|now apply Hnil|lia].
  destruct (v4_octet b ("." :: c ++ "." :: d) (Some ".") 1
              (<[0:=decimalFrom 0 a]> [0;0;0;0]%N) Hb) as (pb & Hpb & ->).
  rewrite v4_dot; [|assumption|now apply Hnil|lia].
  destruct (v4_octet c ("." :: d) (Some ".") 2
              (<[1:=decimalFrom 0 b]> (<[0:=decimalFrom 0 a]> [0;0;0;0]%N)) Hc)
    as (pc & Hpc & ->).
  rewrite v4_dot; [|assumption|now destruct Hd as [? _]|lia].
  rewrite <- (app_nil_r d).
  destruct (v4_octet d [] (Some ".") 3
              (<[2:=decimalFrom 0 c]>
                 (<[1:=decimalFrom 0 b]> (<[0:=decimalFrom 0 a]> [0;0;0;0]%N))) Hd)
    as (pd & Hpd & ->).
  simpl. eauto.
Qed.

Lemma v4_run_back (s : gostring) (p : ascii) (val : N) (pos digLen : nat)
    (fields : list N) (st' : net.v4State) :
  1 <= digLen ->
  net.parseIPv4Loop (Some p) s (net.mkV4 val pos digLen fields) = Some st' ->
  exists ds,
    Forall (fun c => net.isDigit c = true) ds /\
    (digLen = 1 -> val = 0%N -> ds = []) /\
    (s = ds /\ net.v4_pos st' = pos /\ (val <= 255 -> decimalFrom val ds <= 255)%N \/
     exists rest, s = ds ++ "." :: rest /\ rest <> [] /\ pos <> 3 /\
       (val <= 255 -> decimalFrom val ds <= 255)%N /\
       net.parseIPv4Loop (Some ".") rest
         (net.mkV4 0 (S pos) 0 (<[pos := decimalFrom val ds]> fields)) = Some st').
Proof.
  revert p val digLen.
  induction s as [|c s IH]; intros p val digLen Hlen Hrun.
  - simpl in Hrun. injection Hrun as <-. exists []. repeat split.
    + constructor.
    + left. repeat split. intros H. exact H.
  - cbn [net.parseIPv4Loop] in Hrun.
    cbn [net.v4_digLen net.v4_val net.v4_pos net.v4_fields] in Hrun.
    destruct (net.isDigit c) eqn:Hc.
    + destruct ((digLen =? 1)%nat && (val =? 0)%N) eqn:Hz; [discriminate|].
      destruct (N.ltb_spec 255 (val * 10 + (code c - code "0"))) as [|Hv];
        [discriminate|].
      destruct (IH c (val * 10 + (code c - code "0"))%N (S digLen)
                  ltac:(lia) Hrun) as (ds & Hds & _ & Hcases).
      exists (c :: ds). split; [now constructor|]. split.
      { intros H1 H0. subst. simpl in Hz. discriminate. }
      destruct Hcases as [(-> & Hpos & Hval)|(rest & -> & Hrest & Hpos & Hval & Hnext)].
      * left. repeat split; [assumption|]. intros _. rewrite decimalFrom_cons.
        now apply Hval.
      * right. exists rest. repeat split; try assumption.
        intros _. rewrite decimalFrom_cons. now apply Hval.
    + destruct (Ascii.eqb_spec c ".") as [->|]; [|discriminate].
      rewrite (bool_decide_eq_false_2 (Some p = None)) in Hrun by discriminate.
      simpl in Hrun.
      case_bool_decide as Hrest; [discriminate|].
      simpl in Hrun.
      case_bool_decide as Hprev; [discriminate|].
      destruct (Nat.eqb_spec pos 3) as [|Hpos]; [discriminate|].
      exists []. split; [constructor|]. split; [reflexivity|].
      right. exists s. repeat split; try assumption. intros H. exact H.
Qed.

Lemma v4_octet_back (s : gostring) (prev : option ascii) (pos : nat)
    (fields : list N) (st' : net.v4State) :
  prev = None \/ prev = Some "." ->
  s <> [] ->
  net.parseIPv4Loop prev s (net.mkV4 0 pos 0 fields) = Some st' ->
  exists ds, Octet ds /\
    (s = ds /\ net.v4_pos st' = pos \/
     exists rest, s = ds ++ "." :: rest /\ rest <> [] /\ pos <> 3 /\
       net.parseIPv4Loop (Some ".") rest
         (net.mkV4 0 (S pos) 0 (<[pos := decimalFrom 0 ds]> fields)) = Some st').
Proof.
  intros Hprev Hne Hrun. destruct s as [|c s]; [congruence|].
  cbn [net.parseIPv4Loop] in Hrun.
  cbn [net.v4_digLen net.v4_val net.v4_pos net.v4_fields Nat.eqb andb] in Hrun.
  rewrite N.mul_0_l, N.add_0_l in Hrun.
  destruct (net.isDigit c) eqn:Hc.
  - destruct (N.ltb_spec 255 (code c - code "0")) as [|Hv]; [discriminate|].
    destruct (v4_run_back s c (code c - code "0")%N pos 1 fields st'
                ltac:(lia) Hrun) as (ds & Hds & Hzero & Hcases).
    exists (c :: ds).
    assert (Hoct : (decimalFrom (code c - code "0") ds <= 255)%N -> Octet (c :: ds)).
    { intros Hval. repeat split.
      - discriminate.
      - now constructor.
      - simpl. intros ->. rewrite (Hzero eq_refl eq_refl). reflexivity.
      - rewrite decimalFrom_cons, N.mul_0_l, N.add_0_l. exact Hval. }
    destruct Hcases as [(-> & Hpos & Hval)|(rest & -> & Hrest & Hpos & Hval & Hnext)].
    + split; [apply Hoct; now apply Hval|]. left. now split.
    + split; [apply Hoct; now apply Hval|]. right. exists rest.
      repeat split; assumption.
  - destruct (Ascii.eqb_spec c ".") as [->|]; [|discriminate].
    destruct Hprev as [-> | ->].
    + rewrite (bool_decide_eq_true_2 (@None ascii = None)) in Hrun by reflexivity.
      discriminate.
    + rewrite (bool_decide_eq_true_2 (Some "." = Some ".")) in Hrun by reflexivity.
      rewrite !orb_true_r in Hrun. discriminate.
Qed.

Lemma parses_IPv4Literal (v : gostring) (f : list N) :
  net.parseIPv4Fields v = Some f -> IPv4Literal v.
Proof.
  unfold net.parseIPv4Fields.
  destruct (net.parseIPv4Loop None v (net.mkV4 0 0 0 [0; 0; 0; 0]%N))
    as [st|] eqn:E; [|discriminate].
  destruct (Nat.ltb_spec (net.v4_pos st) 3) as [|Hpos]; [discriminate|].
  intros _.
  assert (Hv : v <> []).
  { intros ->. simpl in E. injection E as <-. simpl in Hpos. lia. }
  destruct (v4_octet_back _ _ _ _ _ (or_introl eq_refl) Hv E)
    as (a & Ha & [(_ & Hp)|(r1 & -> & Hr1 & _ & E1)]); [lia|].
  destruct (v4_octet_back _ _ _ _ _ (or_intror eq_refl) Hr1 E1)
    as (b & Hb & [(_ & Hp)|(r2 & -> & Hr2 & _ & E2)]); [lia|].
  destruct (v4_octet_back _ _ _ _ _ (or_intror eq_refl) Hr2 E2)
    as (c & Hc & [(_ & Hp)|(r3 & -> & Hr3 & _ & E3)]); [lia|].
  destruct (v4_octet_back _ _ _ _ _ (or_intror eq_refl) Hr3 E3)
    as (d & Hd & [(-> & _)|(r4 & _ & _ & Hp & _)]); [|lia].
  now exists a, b, c, d.
Qed.

Lemma ParseAddrFrom_no_colon (rest s : gostring) (a : net.Addr) :
  strings.Contains rest ":" = false ->
  net.ParseAddrFrom rest s = Some a ->
  exists f, net.parseIPv4Fields s = Some f.
Proof.
  unfold strings.Contains.
  induction rest as [|c rest IH]; intros Hno Hrun; [discriminate|].
  cbn [existsb] in Hno. apply orb_false_iff in Hno as [Hc Hno].
  cbn [net.ParseAddrFrom] in Hrun.
  destruct (Ascii.eqb c ".").
  - destruct (net.parseIPv4Fields s) as [f|]; [eauto | discriminate].
  - destruct (Ascii.eqb_spec c ":") as [->|].
    + rewrite Ascii.eqb_refl in Hc. discriminate.
    + destruct (Ascii.eqb c "%"); [discriminate|]. now apply IH.
Qed.

Lemma ParseAddrFrom_digits (ds rest s : gostring) :
  Forall (fun c => net.isDigit c = true) ds ->
  net.ParseAddrFrom (ds ++ "." :: rest) s = net.Addr4 <$> net.parseIPv4Fields s.
Proof.
  induction 1 as [|c ds Hc _ IH]; [reflexivity|].
  cbn [app net.ParseAddrFrom].
  rewrite (proj2 (Ascii.eqb_neq _ _) (digit_not_dot c Hc)).
  now rewrite (digit_not_colon c Hc), (digit_not_percent c Hc).
Qed.

Lemma digits_no_colon (ds : gostring) :
  Forall (fun c => net.isDigit c = true) ds -> strings.Contains ds ":" = false.
Proof.
  unfold strings.Contains. induction 1 as [|c ds Hc _ IH]; [reflexivity|].
  cbn [existsb]. rewrite IH, orb_false_r.
  apply Ascii.eqb_neq. intros <-. vm_compute in Hc. discriminate.
Qed.

Lemma Contains_app (s t : gostring) (sep : ascii) :
  strings.Contains (s ++ t) sep = strings.Contains s sep || strings.Contains t sep.
Proof. apply existsb_app. Qed.

Lemma Contains_dot_cons (r : gostring) :
  strings.Contains ("." :: r) ":" = strings.Contains r ":".
Proof. reflexivity. Qed.

Lemma IPv4Literal_no_colon (v : gostring) :
  IPv4Literal v -> strings.Contains v ":" = false.
Proof.
  intros (a & b & c & d & (_ & Ha & _) & (_ & Hb & _) & (_ & Hc & _)
          & (_ & Hd & _) & ->).
  rewrite Contains_app, (digits_no_colon a Ha), Contains_dot_cons.
  rewrite Contains_app, (digits_no_colon b Hb), Contains_dot_cons.
  rewrite Contains_app, (digits_no_colon c Hc), Contains_dot_cons.
  now rewrite (digits_no_colon d Hd).
Qed.

Lemma ParseIP_dotted (v : gostring) :
  net.ParseIP v <> None /\ strings.Contains v ":" = false <-> IPv4Literal v.
Proof.
  unfold net.ParseIP, net.ParseAddr. split.
  - intros [Hip Hno].
    destruct (net.ParseAddrFrom v v) as [a|] eqn:E; [|congruence].
    destruct (ParseAddrFrom_no_colon _ _ _ Hno E) as [f Hf].
    now apply parses_IPv4Literal in Hf.
  - intros Hlit. split; [|now apply IPv4Literal_no_colon].
    destruct (IPv4Literal_parses v Hlit) as [f Hf].
    destruct Hlit as (a & b & c & d & (_ & Ha & _) & _ & _ & _ & Hv).
    rewrite Hv at 1. rewrite ParseAddrFrom_digits by assumption.
    rewrite Hf. simpl. discriminate.
Qed.

(** C4 (amended): [validCookieDomain] accepts exactly the cookie domain
    names (at most 255 bytes; labels of 1 to 63 letters, digits and
    hyphens with no hyphen at either end, joined by dots; optionally one
    dot in front and one behind; at least one letter) and the
    dotted-decimal IPv4 literals.  Nothing else is accepted; in
    particular no text with a colon is, so no IPv6 literal. *)
Theorem validCookieDomain_grammar (v : gostring) :
  validCookieDomain v = true <-> CookieDomainName v \/ IPv4Literal v.
Proof.
  unfold validCookieDomain.
  rewrite <- isCookieDomainName_grammar, <- ParseIP_dotted.
  destruct (isCookieDomainName v); [tauto|].
  case_bool_decide as Hip; simpl.
  - destruct (strings.Contains v ":"); simpl; intuition congruence.
  - intuition congruence.
Qed.

(** C4 as worded fails: "::1" is an IPv6 literal without zone or port,
    [net.ParseIP] parses it, and [validCookieDomain] refuses it. *)
Lemma validCookieDomain_refuses_IPv6 :
  net.ParseIP (str "::1") = Some [0;0;0;0;0;0;0;0;0;0;0;0;0;0;0;1]%N /\
  strings.Contains (str "::1") "%" = false /\
  validCookieDomain (str "::1") = false /\
  ~ (validCookieDomain (str "::1") = true <->
     CookieDomainName (str "::1") \/ net.ParseIP (str "::1") <> None).
Proof.
  assert (Hip : net.ParseIP (str "::1") = Some [0;0;0;0;0;0;0;0;0;0;0;0;0;0;0;1]%N)
    by (vm_compute; reflexivity).
  assert (Hv : validCookieDomain (str "::1") = false) by (vm_compute; reflexivity).
  repeat split; try assumption.
  intros [_ H]. rewrite Hv in H.
  assert (false = true); [|discriminate].
  apply H. right. rewrite Hip. discriminate.
Qed.

(** * Further properties *)

(** ** Writing and re-reading cookie values *)

Lemma allValidCookieValueBytes_forallb (raw : gostring) :
  allValidCookieValueBytes raw = forallb validCookieValueByte raw.
Proof.
  induction raw as [|b raw IH]; simpl; [reflexivity|].
  destruct (validCookieValueByte b); simpl; [exact IH | reflexivity].
Qed.

Lemma forallb_filter (valid : ascii -> bool) (v : gostring) :
  forallb valid (List.filter valid v) = true.
Proof.
  apply forallb_forall. intros b Hb. now apply filter_In in Hb.
Qed.

Lemma valid_head_not_quoted (s : gostring) :
  forallb validCookieValueByte s = true ->
  forall body, s <> DQUOTE :: body ++ [DQUOTE].
Proof.
  intros Hs body ->. simpl in Hs. discriminate.
Qed.

Lemma parseCookieValue_valid (s : gostring) (allowDoubleQuote : bool) :
  forallb validCookieValueByte s = true ->
  parseCookieValue s allowDoubleQuote = (s, false, true).
Proof.
  intros Hs. destruct allowDoubleQuote.
  - rewrite parseCookieValue_plain by now apply valid_head_not_quoted.
    now rewrite allValidCookieValueBytes_forallb, Hs.
  - unfold parseCookieValue. cbn [andb].
    now rewrite allValidCookieValueBytes_forallb, Hs.
Qed.

(** X1: whatever [sanitizeCookieValue] writes, [parseCookieValue] (in
    cookie-value mode) reads back successfully, and the value read is the
    input without its invalid bytes; the quoted flag read tells whether
    the written form was wrapped in double quotes. *)
Theorem sanitize_then_parse (v : gostring) (quoted : bool) :
  parseCookieValue (sanitizeCookieValue v quoted).1 true =
    (List.filter validCookieValueByte v,
     negb (Nat.eqb (length (List.filter validCookieValueByte v)) 0)
     && (strings.ContainsAny (List.filter validCookieValueByte v) (str " ,")
         || quoted),
     true).
Proof.
  unfold sanitizeCookieValue.
  pose proof (sanitizeOrWarn_filter "Cookie.Value" validCookieValueByte v) as Hf.
  destruct (sanitizeOrWarn "Cookie.Value" validCookieValueByte v) as [s log].
  simpl in Hf. subst s.
  pose proof (forallb_filter validCookieValueByte v) as Hs.
  set (s := List.filter validCookieValueByte v) in *.
  destruct (Nat.eqb (length s) 0) eqn:Hlen; simpl.
  - now apply parseCookieValue_valid.
  - destruct (strings.ContainsAny s _ || quoted); simpl.
    + etransitivity; [apply (parseCookieValue_quoted s)|].
      now rewrite allValidCookieValueBytes_forallb, Hs.
    + now apply parseCookieValue_valid.
Qed.

(** X2: the string written by [sanitizeCookieValue] cannot break out of
    its header field: it holds no ';', no control byte (so no CR or LF)
    and no byte above 0x7E, and a double quote occurs in it only as its
    first and its last byte. *)
Theorem sanitizeCookieValue_safe (v : gostring) (quoted : bool) :
  Forall (fun b => b <> ";" /\ b <> CR /\ b <> LF /\ (0x20 <= code b <= 0x7e)%N)
    (sanitizeCookieValue v quoted).1 /\
  exists s, Forall valueOctet s /\
    ((sanitizeCookieValue v quoted).1 = s \/
     (sanitizeCookieValue v quoted).1 = DQUOTE :: s ++ [DQUOTE]).
Proof.
  unfold sanitizeCookieValue.
  pose proof (sanitizeOrWarn_filter "Cookie.Value" validCookieValueByte v) as Hf.
  destruct (sanitizeOrWarn "Cookie.Value" validCookieValueByte v) as [s log].
  simpl in Hf. subst s.
  pose proof (forallb_filter validCookieValueByte v) as Hs.
  set (s := List.filter validCookieValueByte v) in *.
  assert (Hoct : Forall valueOctet s).
  { apply allValidCookieValueBytes_octets.
    now rewrite allValidCookieValueBytes_forallb. }
  assert (Hsafe : Forall (fun b => b <> ";" /\ b <> CR /\ b <> LF
                                   /\ (0x20 <= code b <= 0x7e)%N) s).
  { eapply Forall_impl; [exact Hoct|].
    intros b ([Hlo Hhi] & _ & Hsemi & _). repeat split; try assumption.
    - intros ->. vm_compute in Hlo. now apply Hlo.
    - intros ->. vm_compute in Hlo. now apply Hlo. }
  assert (Hq : (fun b => b <> ";" /\ b <> CR /\ b <> LF
                         /\ (0x20 <= code b <= 0x7e)%N) DQUOTE).
  { repeat split; try discriminate; vm_compute; discriminate. }
  destruct (Nat.eqb (length s) 0); simpl.
  - split; [assumption|]. exists s. split; [assumption | now left].
  - destruct (strings.ContainsAny s _ || quoted); simpl.
    + split.
      * constructor; [exact Hq|]. apply Forall_app. split; [assumption|].
        constructor; [exact Hq | constructor].
      * exists s. split; [assumption | now right].
    + split; [assumption|]. exists s. split; [assumption | now left].
Qed.

(** X3: [sanitizeOrWarn] is idempotent, and a second pass finds nothing
    to drop: it returns its input and logs nothing. *)
Theorem sanitizeOrWarn_idempotent (f g : string) (valid : ascii -> bool)
    (v : gostring) :
  sanitizeOrWarn g valid (sanitizeOrWarn f valid v).1 =
    ((sanitizeOrWarn f valid v).1, []).
Proof.
  rewrite sanitizeOrWarn_filter. unfold sanitizeOrWarn at 1.
  now rewrite (proj2 (firstInvalid_forallb valid _) (forallb_filter valid v)).
Qed.

Lemma sanitizeCookieName_clean (n : gostring) :
  Forall (fun b => b <> CR /\ b <> LF) (sanitizeCookieName n).
Proof.
  unfold sanitizeCookieName. apply Forall_map, Forall_forall. intros b _. simpl.
  destruct (Ascii.eqb_spec b LF) as [|Hlf]; simpl; [split; discriminate|].
  destruct (Ascii.eqb_spec b CR) as [|Hcr]; simpl; [split; discriminate|].
  now split.
Qed.

Lemma sanitizeCookieName_id (n : gostring) :
  Forall (fun b => b <> CR /\ b <> LF) n -> sanitizeCookieName n = n.
Proof.
  unfold sanitizeCookieName.
  induction 1 as [|b m [Hcr Hlf] _ IH]; simpl; [reflexivity|].
  rewrite IH.
  now rewrite (proj2 (Ascii.eqb_neq _ _) Hcr), (proj2 (Ascii.eqb_neq _ _) Hlf).
Qed.

(** X4: [sanitizeCookieName] keeps the length of the name and leaves no
    CR or LF in it; a name without CR and LF is returned unchanged, and
    the function is idempotent. *)
Theorem sanitizeCookieName_no_newline (n : gostring) :
  length (sanitizeCookieName n) = length n /\
  Forall (fun b => b <> CR /\ b <> LF) (sanitizeCookieName n) /\
  (sanitizeCookieName n = n <-> Forall (fun b => b <> CR /\ b <> LF) n) /\
  sanitizeCookieName (sanitizeCookieName n) = sanitizeCookieName n.
Proof.
  split; [apply length_map|]. split; [apply sanitizeCookieName_clean|]. split.
  - split; [intros <-; apply sanitizeCookieName_clean | apply sanitizeCookieName_id].
  - apply sanitizeCookieName_id, sanitizeCookieName_clean.
Qed.

(** ** More on reading request cookies *)

Lemma cookiesOfLines_Forall (P : Cookie -> Prop) (filter : gostring)
    (lines : list gostring) :
  (forall seg c, readCookiePart filter seg = Some c -> P c) ->
  Forall P (cookiesOfLines filter lines).
Proof.
  intros HP. apply Forall_forall. intros c Hc.
  apply list_elem_of_In, cookiesOfLines_In in Hc as (line & seg & _ & _ & Hpart).
  now apply (HP seg).
Qed.

Lemma token_not_newline (b : ascii) :
  isTokenByte b = true -> b <> CR /\ b <> LF.
Proof. byte_cases b. Qed.

Lemma octets_forallb (v : gostring) :
  Forall valueOctet v -> forallb validCookieValueByte v = true.
Proof.
  intros H. rewrite <- allValidCookieValueBytes_forallb.
  now apply allValidCookieValueBytes_octets.
Qed.

Lemma sanitizeOrWarn_valid (f : string) (valid : ascii -> bool) (v : gostring) :
  forallb valid v = true -> sanitizeOrWarn f valid v = (v, []).
Proof.
  intros H. unfold sanitizeOrWarn.
  now rewrite (proj2 (firstInvalid_forallb valid v) H).
Qed.

(** X5: the cookies [readCookies] returns survive the write side
    untouched: [sanitizeCookieName] leaves the name as it is,
    value sanitization drops no byte and logs nothing, and the value
    written by [sanitizeCookieValue] is read back by [parseCookieValue] as
    the same value. *)
Theorem readCookies_write_stable (h : Header) (filter : gostring) :
  exists cs, readCookies h filter = Some (mk_slice cs) /\
    Forall (fun c =>
              sanitizeCookieName (Name c) = Name c /\
              sanitizeOrWarn "Cookie.Value" validCookieValueByte (Value c)
                = (Value c, []) /\
              exists q,
                parseCookieValue (sanitizeCookieValue (Value c) (Quoted c)).1 true
                  = (Value c, q, true)) cs.
Proof.
  eexists. split; [apply readCookies_segments|].
  apply cookiesOfLines_Forall. intros seg c Hpart.
  apply readCookiePart_spec in Hpart
    as (name & val & found & _ & _ & _ & Hname & _ & _ & Hoct).
  apply octets_forallb in Hoct.
  split; [|split].
  - apply sanitizeCookieName_id.
    apply isCookieNameValid_token in Hname as [_ Htok].
    rewrite forallb_forall in Htok. apply Forall_forall.
    intros b Hb. apply token_not_newline, Htok. now apply list_elem_of_In.
  - now apply sanitizeOrWarn_valid.
  - unfold sanitizeCookieValue. rewrite (sanitizeOrWarn_valid _ _ _ Hoct).
    destruct (Nat.eqb (length (Value c)) 0).
    + eexists. now apply parseCookieValue_valid.
    + destruct (strings.ContainsAny (Value c) _ || Quoted c); simpl.
      * eexists. etransitivity; [apply (parseCookieValue_quoted (Value c))|].
        now rewrite allValidCookieValueBytes_forallb, Hoct.
      * eexists. now apply parseCookieValue_valid.
Qed.

Lemma readCookiePart_invalid_filter (filter seg : gostring) :
  filter <> [] -> isCookieNameValid filter = false ->
  readCookiePart filter seg = None.
Proof.
  intros Hne Hbad. destruct (readCookiePart filter seg) as [c|] eqn:E; [|reflexivity].
  apply readCookiePart_spec in E
    as (name & val & found & _ & _ & _ & Hname & [Hf|Hf] & _); congruence.
Qed.

(** X6: a non-empty [filter] that is not a valid cookie name matches
    nothing: [readCookies] returns the empty sequence whatever the
    header holds. *)
Theorem readCookies_invalid_filter (h : Header) (filter : gostring) :
  filter <> [] -> isCookieNameValid filter = false ->
  readCookies h filter = Some (mk_slice []).
Proof.
  intros Hne Hbad. rewrite readCookies_segments. do 2 f_equal.
  apply cookiesOfLines_all_dropped. apply Forall_forall. intros line _.
  apply Forall_forall. intros seg _. now apply readCookiePart_invalid_filter.
Qed.

Lemma readCookies_invalid_filter_witness :
  readCookies (cookieHeader [str "a b=1; b=2"]) (str "a b") = Some (mk_slice []).
Proof.
  apply readCookies_invalid_filter; [discriminate | vm_compute; reflexivity].
Defined.

Lemma readSetCookiesLoop_stuck (fuel : nat) (line : gostring)
    (rest : list gostring) (cookies : list (option Cookie)) :
  readSetCookiesLoop fuel (line :: rest) cookies = None.
Proof. simpl. now rewrite ParseSetCookie_out_of_fuel. Qed.

(** X7: [readSetCookies] returns exactly when the header holds no
    "Set-Cookie" line, and then returns an empty, non-nil sequence; with
    at least one line it never returns, whatever the depth allowed to the
    call chain of [ParseSetCookie]. *)
Theorem readSetCookies_returns_iff_no_line (fuel : nat) (h : Header) :
  readSetCookies fuel h =
    if bool_decide (header_get h "Set-Cookie" = []) then Some (mk_slice [])
    else None.
Proof.
  unfold readSetCookies.
  destruct (header_get h "Set-Cookie") as [|line rest]; [reflexivity|].
  simpl Nat.eqb. cbv iota. rewrite readSetCookiesLoop_stuck.
  now rewrite bool_decide_eq_false_2.
Qed.

(** X8: what [parseCookieValue] returns, in either mode: on failure the
    value is empty; on success the value consists of accepted bytes only,
    is the input or the input without its two enclosing double quotes,
    and parses again to itself, unquoted.  The quoted flag is only ever
    set in cookie-value mode. *)
Theorem parseCookieValue_result (raw : gostring) (allowDoubleQuote : bool) :
  let '(value, quoted, ok) := parseCookieValue raw allowDoubleQuote in
  (ok = false -> value = []) /\
  (quoted = true -> allowDoubleQuote = true /\
                    exists body, raw = DQUOTE :: body ++ [DQUOTE]) /\
  (ok = true ->
     Forall valueOctet value /\
     (if quoted then raw = DQUOTE :: value ++ [DQUOTE] else raw = value) /\
     forall allow, parseCookieValue value allow = (value, false, true)).
Proof.
  assert (Hgen : forall body q,
             (q = true -> allowDoubleQuote = true /\
                          exists b0, raw = DQUOTE :: b0 ++ [DQUOTE]) ->
             (if q then raw = DQUOTE :: body ++ [DQUOTE] else raw = body) ->
             let '(value, quoted, ok) :=
               (if allValidCookieValueBytes body
                then (body, q, true) else ([], q, false)) in
             (ok = false -> value = []) /\
             (quoted = true -> allowDoubleQuote = true /\
                               exists b0, raw = DQUOTE :: b0 ++ [DQUOTE]) /\
             (ok = true ->
                Forall valueOctet value /\
                (if quoted then raw = DQUOTE :: value ++ [DQUOTE] else raw = value) /\
                forall allow, parseCookieValue value allow = (value, false, true))).
  { intros body q Hq Hraw.
    destruct (allValidCookieValueBytes body) eqn:Hv.
    - split; [discriminate|]. split; [exact Hq|]. intros _.
      split; [now apply allValidCookieValueBytes_octets|]. split; [exact Hraw|].
      intros allow. apply parseCookieValue_valid.
      now rewrite <- allValidCookieValueBytes_forallb.
    - split; [reflexivity|]. split; [exact Hq|]. discriminate. }
  destruct allowDoubleQuote.
  - destruct (Unquoted_total raw) as (body & q & Hu).
    rewrite (parseCookieValue_unquoted _ _ _ Hu).
    apply Hgen.
    + intros ->. split; [reflexivity|]. inversion Hu; subst. eauto.
    + destruct Hu; reflexivity.
  - unfold parseCookieValue. cbn [andb].
    apply Hgen; [discriminate | reflexivity].
Qed.

Lemma splitOn_length (sep : ascii) (s : gostring) :
  length (splitOn sep s) = S (strings.Count s sep).
Proof.
  unfold strings.Count. induction s as [|c s IH]; [reflexivity|].
  cbn [splitOn List.filter]. rewrite (Ascii.eqb_sym sep c).
  destruct (Ascii.eqb c sep); simpl.
  - now rewrite IH.
  - destruct (splitOn sep s) as [|seg segs]; simpl in *; lia.
Qed.

Lemma Count_trimLeft (s : gostring) (sep : ascii) :
  strings.Count (textproto.trimLeft s) sep <= strings.Count s sep.
Proof.
  unfold strings.Count. induction s as [|c s IH]; simpl; [lia|].
  destruct (textproto.isASCIISpace c); [|simpl; lia].
  destruct (Ascii.eqb sep c); simpl; lia.
Qed.

Lemma Count_rev (s : gostring) (sep : ascii) :
  strings.Count (rev s) sep = strings.Count s sep.
Proof.
  unfold strings.Count. induction s as [|c s IH]; [reflexivity|].
  simpl rev. rewrite List.filter_app, length_app, IH. simpl.
  destruct (Ascii.eqb sep c); simpl; lia.
Qed.

Lemma Count_TrimString (s : gostring) (sep : ascii) :
  strings.Count (textproto.TrimString s) sep <= strings.Count s sep.
Proof.
  unfold textproto.TrimString, textproto.trimRight.
  rewrite Count_rev.
  etransitivity; [apply Count_trimLeft|]. rewrite Count_rev.
  apply Count_trimLeft.
Qed.

Lemma omap_length_le {A B} (f : A -> option B) (l : list A) :
  length (omap f l) <= length l.
Proof.
  induction l as [|x l IH]; [simpl; lia|].
  change (omap f (x :: l))
    with (match f x with Some y => y :: omap f l | None => omap f l end).
  destruct (f x); simpl length; lia.
Qed.

Lemma cookiesOfLines_length (filter : gostring) (lines : list gostring) :
  length (cookiesOfLines filter lines) <=
    length lines + list_sum (map (fun line => strings.Count line ";") lines).
Proof.
  unfold cookiesOfLines. induction lines as [|line lines IH]; simpl; [lia|].
  rewrite length_app. unfold cookiesOfLine at 1, segments.
  pose proof (omap_length_le (readCookiePart filter)
                (splitOn ";" (textproto.TrimString line))) as H1.
  rewrite splitOn_length in H1.
  pose proof (Count_TrimString line ";") as H2. lia.
Qed.

(** X9: [readCookies] returns at most one cookie per ';'-separated
    piece: no more than the number of lines plus the number of ';' in
    them.  For a header with a single "Cookie" line this bound is the
    capacity [len(lines)+strings.Count(lines[0], ";")] the function
    allocates, so the appends never outgrow it. *)
Theorem readCookies_count (h : Header) (filter : gostring) :
  exists cs, readCookies h filter = Some (mk_slice cs) /\
    length cs <= length (header_get h "Cookie")
                 + list_sum (map (fun line => strings.Count line ";")
                               (header_get h "Cookie")) /\
    (forall line, header_get h "Cookie" = [line] ->
       length cs <= length (header_get h "Cookie")
                    + strings.Count (List.hd [] (header_get h "Cookie")) ";").
Proof.
  eexists. split; [apply readCookies_segments|].
  pose proof (cookiesOfLines_length filter (header_get h "Cookie")) as Hlen.
  split; [exact Hlen|].
  intros line Hline. rewrite Hline in *. simpl in *. lia.
Qed.

(** ** request.go *)

Lemma ParseUint_single (c : ascii) :
  strconv.ParseUint [c] =
    if net.isDigit c then Some (code c - code "0")%N else None.
Proof.
  unfold strconv.ParseUint. rewrite bool_decide_eq_false_2 by discriminate.
  cbn [strconv.ParseUintLoop]. unfold net.isDigit.
  destruct ((code "0" <=? code c)%N && (code c <=? code "9")%N) eqn:Hd;
    [|reflexivity].
  pose proof (digit_value_le c Hd) as Hle.
  change (0xffffffffffffffff / 10 + 1 <=? 0)%N with false. cbv iota.
  rewrite N.mul_0_l, N.add_0_l.
  replace (0xffffffffffffffff <? code c - code "0")%N with false
    by (symmetry; apply N.ltb_ge; lia).
  reflexivity.
Qed.

Lemma digitByte_value (c : ascii) :
  net.isDigit c = true ->
  digitByte (Z.of_N (code c - code "0")) = c /\
  (0 <= Z.of_N (code c - code "0") <= 9)%Z.
Proof. byte_cases c; split; (reflexivity || discriminate). Qed.

Lemma ParseHTTPVersion_form (c5 c6 c7 : ascii) :
  ParseHTTPVersion (str "HTTP/" ++ [c5; c6; c7]) =
    if Ascii.eqb c6 "." && net.isDigit c5 && net.isDigit c7
    then (Z.of_N (code c5 - code "0"), Z.of_N (code c7 - code "0"), true)
    else (0, 0, false)%Z.
Proof.
  unfold ParseHTTPVersion.
  case_bool_decide as H11.
  { injection H11 as -> -> ->. reflexivity. }
  case_bool_decide as H10.
  { injection H10 as -> -> ->. reflexivity. }
  cbn [str list_ascii_of_string app strings.HasPrefix length nth drop take
         Nat.sub Nat.eqb negb andb].
  rewrite !Ascii.eqb_refl. cbn [andb negb Nat.eqb].
  destruct (Ascii.eqb c6 "."); [|reflexivity]. cbn [negb andb].
  rewrite !ParseUint_single.
  destruct (net.isDigit c5); [|reflexivity].
  destruct (net.isDigit c7); reflexivity.
Qed.

Lemma ParseHTTPVersion_shape (vers : gostring) :
  strings.HasPrefix vers (str "HTTP/") = true ->
  length vers = 8 ->
  exists c5 c6 c7, vers = str "HTTP/" ++ [c5; c6; c7].
Proof.
  intros Hp Hlen.
  do 8 (destruct vers as [|? vers]; [discriminate Hlen|]).
  destruct vers; [|discriminate Hlen].
  cbn [str list_ascii_of_string strings.HasPrefix] in Hp.
  repeat (apply andb_true_iff in Hp as [Hc Hp];
          apply Ascii.eqb_eq in Hc; subst).
  eauto.
Qed.

(** X10: a version text of the form HTTP/d.d with decimal digits d is
    parsed to its two digits: formatting [major] and [minor] (each between
    0 and 9) and parsing the result gives them back. *)
Theorem ParseHTTPVersion_format (major minor : Z) :
  (0 <= major <= 9)%Z -> (0 <= minor <= 9)%Z ->
  ParseHTTPVersion (str "HTTP/" ++ [digitByte major; "."; digitByte minor]) =
    (major, minor, true).
Proof.
  intros Hmaj Hmin. rewrite ParseHTTPVersion_form.
  assert (Hd : forall n, (0 <= n <= 9)%Z ->
                 net.isDigit (digitByte n) = true /\
                 Z.of_N (code (digitByte n) - code "0") = n).
  { intros n Hn. rewrite <- (Z2Nat.id n) by lia.
    assert (Hk : Z.to_nat n < 10) by lia.
    generalize dependent (Z.to_nat n). intros k Hk.
    do 10 (destruct k as [|k]; [split; reflexivity|]). lia. }
  destruct (Hd major Hmaj) as [-> ->]. destruct (Hd minor Hmin) as [-> ->].
  reflexivity.
Qed.

Lemma ParseHTTPVersion_format_witness :
  ParseHTTPVersion (str "HTTP/" ++ [digitByte 2; "."; digitByte 0]) =
    (2, 0, true)%Z.
Proof. apply ParseHTTPVersion_format; lia. Defined.

(** X11: [ParseHTTPVersion] accepts nothing but the eight-byte texts
    HTTP/d.d: when it reports success the input is the formatting of the
    two numbers returned, each between 0 and 9 (so "HTTP/2", "HTTP/1.10"
    and "http/1.1" are refused); when it reports failure both numbers are
    0. *)
Theorem ParseHTTPVersion_result (vers : gostring) :
  let '(major, minor, ok) := ParseHTTPVersion vers in
  if ok then
    (0 <= major <= 9)%Z /\ (0 <= minor <= 9)%Z /\
    vers = str "HTTP/" ++ [digitByte major; "."; digitByte minor]
  else major = 0%Z /\ minor = 0%Z.
Proof.
  destruct (strings.HasPrefix vers (str "HTTP/")
            && Nat.eqb (length vers) 8) eqn:Hshape.
  - apply andb_true_iff in Hshape as [Hp Hlen]. apply Nat.eqb_eq in Hlen.
    destruct (ParseHTTPVersion_shape vers Hp Hlen) as (c5 & c6 & c7 & ->).
    rewrite ParseHTTPVersion_form.
    destruct (Ascii.eqb_spec c6 ".") as [->|]; [|now split].
    destruct (net.isDigit c5) eqn:H5; [|now split].
    destruct (net.isDigit c7) eqn:H7; [|now split].
    cbn [andb].
    destruct (digitByte_value c5 H5) as [E5 R5].
    destruct (digitByte_value c7 H7) as [E7 R7].
    rewrite E5, E7. repeat split; lia.
  - unfold ParseHTTPVersion.
    case_bool_decide as H11; [subst vers; discriminate Hshape|].
    case_bool_decide as H10; [subst vers; discriminate Hshape|].
    destruct (strings.HasPrefix vers (str "HTTP/")); [|now split].
    cbn [negb andb] in *. change (length (str "HTTP/X.Y")) with 8.
    rewrite Hshape. now split.
Qed.

Lemma IndexFunc_minus_one (s : gostring) (f : ascii -> bool) :
  (strings.IndexFunc s f =? -1)%Z = (strings.IndexFunc s f <? 0)%Z.
Proof.
  pose proof (IndexFunc_lower s f).
  destruct (Z.eqb_spec (strings.IndexFunc s f) (-1));
    destruct (Z.ltb_spec (strings.IndexFunc s f) 0); (reflexivity || lia).
Qed.

(** X12: [validMethod] and [isCookieNameValid] accept the same strings,
    the non-empty strings of token bytes: a text is a valid method name
    exactly when it is a valid cookie name. *)
Theorem validMethod_is_token (method : gostring) :
  validMethod method = isCookieNameValid method /\
  (validMethod method = true <->
   method <> [] /\ forallb isTokenByte method = true).
Proof.
  assert (H : validMethod method = isCookieNameValid method).
  { unfold validMethod, isCookieNameValid. rewrite IndexFunc_minus_one.
    destruct method as [|c method]; [reflexivity|].
    now rewrite bool_decide_eq_false_2 by discriminate. }
  split; [exact H|]. rewrite H. apply isCookieNameValid_token.
Qed.

Lemma LastIndex_absent (s : gostring) (c : ascii) :
  ~ In c s -> strings.LastIndex s c = (-1)%Z.
Proof.
  induction s as [|x s IH]; intros Hno; [reflexivity|].
  cbn [strings.LastIndex]. rewrite IH by (intros H; apply Hno; now right).
  simpl. destruct (Ascii.eqb_spec x c) as [->|]; [|reflexivity].
  exfalso. apply Hno. now left.
Qed.

Lemma LastIndex_last (pre post : gostring) (c : ascii) :
  ~ In c post ->
  strings.LastIndex (pre ++ c :: post) c = Z.of_nat (length pre).
Proof.
  intros Hno. induction pre as [|x pre IH].
  - cbn [app strings.LastIndex]. rewrite (LastIndex_absent _ _ Hno). simpl.
    now rewrite Ascii.eqb_refl.
  - cbn [app strings.LastIndex]. rewrite IH.
    destruct (Z.leb_spec 0 (Z.of_nat (length pre))); simpl length; lia.
Qed.

Lemma LastIndex_found (s : gostring) (c : ascii) :
  (0 <= strings.LastIndex s c)%Z ->
  exists pre post, s = pre ++ c :: post /\ ~ In c post /\
                   strings.LastIndex s c = Z.of_nat (length pre).
Proof.
  induction s as [|x s IH]; [simpl; lia|].
  cbn [strings.LastIndex].
  destruct (Z.leb_spec 0 (strings.LastIndex s c)) as [Hr|Hr].
  - intros _. destruct (IH Hr) as (pre & post & -> & Hno & Hi).
    exists (x :: pre), post. repeat split; try assumption.
    rewrite Hi. simpl length. lia.
  - destruct (Ascii.eqb_spec x c) as [->|]; [|lia].
    intros _. exists [], s. repeat split.
    intros Hin. destruct (In_dec ascii_dec c s) as [Hyes|Hnot]; [|contradiction].
    apply in_split in Hyes as (a & b & ->).
    clear IH Hin.
    assert (Hge : forall a b, (0 <= strings.LastIndex (a ++ c :: b) c)%Z).
    { clear. intros a b. induction a as [|y a IH]; cbn [app strings.LastIndex].
      - destruct (Z.leb_spec 0 (strings.LastIndex b c)); [lia|].
        rewrite Ascii.eqb_refl. lia.
      - destruct (Z.leb_spec 0 (strings.LastIndex (a ++ c :: b) c)); lia. }
    specialize (Hge a b). lia.
Qed.

(** X13: [removeZone] removes the zone of a bracketed host: between the
    last '%' before the last ']' and that ']' everything goes, and the
    rest of the host, port included, stays. *)
Theorem removeZone_strips (addr zone rest : gostring) :
  ~ In "%" zone -> ~ In "]" rest ->
  removeZone ("[" :: addr ++ "%" :: zone ++ "]" :: rest) =
    "[" :: addr ++ "]" :: rest.
Proof.
  intros Hzone Hrest. unfold removeZone.
  cbn [str list_ascii_of_string strings.HasPrefix]. rewrite Ascii.eqb_refl.
  cbn [andb negb].
  change ("[" :: addr ++ "%" :: zone ++ "]" :: rest)
    with (("[" :: addr) ++ "%" :: zone ++ "]" :: rest).
  replace (("[" :: addr) ++ "%" :: zone ++ "]" :: rest)
    with ((("[" :: addr) ++ "%" :: zone) ++ "]" :: rest)
    by (now rewrite <- app_assoc).
  rewrite (LastIndex_last _ _ _ Hrest).
  destruct (Z.ltb_spec (Z.of_nat (length (("[" :: addr) ++ "%" :: zone))) 0);
    [lia|].
  rewrite Nat2Z.id, take_app_length, drop_app_length.
  rewrite (LastIndex_last _ _ _ Hzone).
  destruct (Z.ltb_spec (Z.of_nat (length ("[" :: addr))) 0); [lia|].
  rewrite Nat2Z.id.
  rewrite <- (app_assoc ("[" :: addr)), take_app_length. reflexivity.
Qed.

Lemma removeZone_strips_witness :
  removeZone (str "[fe80::1%en0]:8080") = str "[fe80::1]:8080".
Proof.
  apply (removeZone_strips (str "fe80::1") (str "en0") (str ":8080"));
    simpl; intuition discriminate.
Defined.

(** X14: [removeZone] changes nothing else: a host is returned as it is
    unless it starts with '[' and has a '%' before its last ']'. *)
Theorem removeZone_otherwise_unchanged (host : gostring) :
  removeZone host = host \/
  exists addr zone rest,
    host = "[" :: addr ++ "%" :: zone ++ "]" :: rest /\
    ~ In "%" zone /\ ~ In "]" rest.
Proof.
  unfold removeZone.
  destruct (strings.HasPrefix host (str "[")) eqn:Hp; [|now left].
  cbn [negb].
  destruct (Z.ltb_spec (strings.LastIndex host "]") 0) as [|Hi]; [now left|].
  destruct (LastIndex_found _ _ Hi) as (pre & rest & Hhost & Hrest & ->).
  rewrite Nat2Z.id. rewrite Hhost at 1. rewrite take_app_length.
  destruct (Z.ltb_spec (strings.LastIndex pre "%") 0) as [|Hj]; [now left|].
  destruct (LastIndex_found _ _ Hj) as (p2 & zone & Hpre & Hzone & _).
  right. subst pre. subst host.
  destruct p2 as [|b p2].
  - cbn [app str list_ascii_of_string strings.HasPrefix] in Hp.
    vm_compute in Hp. discriminate.
  - cbn [app str list_ascii_of_string strings.HasPrefix] in Hp.
    rewrite andb_true_r in Hp. apply Ascii.eqb_eq in Hp. subst b.
    exists p2, zone, rest. repeat split; try assumption.
    cbn [app]. now rewrite <- app_assoc.
Qed.

(** ** response.go *)

(** X15: [fixPragmaCacheControl] touches nothing but an absent
    "Cache-Control" entry: every key keeps its value, except that
    "Cache-Control", when absent, may receive the single value
    [no-cache]; an entry that is present, even with no value, is never
    replaced. *)
Theorem fixPragmaCacheControl_frame (header : Header) (key : string) :
  fixPragmaCacheControl header !! key = header !! key \/
  key = "Cache-Control"%string /\ header !! key = None /\
  fixPragmaCacheControl header !! key = Some [str "no-cache"].
Proof.
  unfold fixPragmaCacheControl.
  destruct (header !! "Pragma"%string) as [hp|]; [|now left].
  destruct (Nat.ltb 0 (length hp) && bool_decide (List.hd [] hp = str "no-cache"));
    [|now left].
  destruct (header !! "Cache-Control"%string) as [cc|] eqn:Hcc; [now left|].
  destruct (decide (key = "Cache-Control"%string)) as [->|Hne].
  - right. rewrite lookup_insert_eq. now repeat split.
  - left. now rewrite lookup_insert_ne.
Qed.

(** X16: after [fixPragmaCacheControl], a header whose first "Pragma"
    value is [no-cache] has a "Cache-Control" entry; and the function is
    idempotent. *)
Theorem fixPragmaCacheControl_post (header : Header) :
  (forall rest, header !! "Pragma"%string = Some (str "no-cache" :: rest) ->
     is_Some (fixPragmaCacheControl header !! "Cache-Control"%string)) /\
  fixPragmaCacheControl (fixPragmaCacheControl header) =
    fixPragmaCacheControl header.
Proof.
  split.
  - intros rest Hp. unfold fixPragmaCacheControl. rewrite Hp.
    cbn [length Nat.ltb Nat.leb List.hd andb].
    rewrite bool_decide_eq_true_2 by reflexivity.
    destruct (header !! "Cache-Control"%string) as [cc|] eqn:Hcc.
    + rewrite Hcc. eauto.
    + rewrite lookup_insert_eq. eauto.
  - unfold fixPragmaCacheControl at 2.
    destruct (header !! "Pragma"%string) as [hp|] eqn:Hp.
    2:{ unfold fixPragmaCacheControl. now rewrite Hp. }
    destruct (Nat.ltb 0 (length hp) && bool_decide (List.hd [] hp = str "no-cache"))
      eqn:Hc.
    2:{ unfold fixPragmaCacheControl. now rewrite Hp, Hc. }
    destruct (header !! "Cache-Control"%string) as [cc|] eqn:Hcc.
    { unfold fixPragmaCacheControl. now rewrite Hp, Hc, Hcc. }
    unfold fixPragmaCacheControl.
    rewrite lookup_insert_ne by discriminate. rewrite Hp, Hc.
    now rewrite lookup_insert_eq, Hcc.
Qed.

Lemma fixPragmaCacheControl_post_witness :
  is_Some (fixPragmaCacheControl {[ "Pragma"%string := [str "no-cache"] ]}
             !! "Cache-Control"%string).
Proof.
  apply (proj1 (fixPragmaCacheControl_post _) []). apply lookup_singleton_eq.
Defined.

(** ** More on cookie domains *)

Lemma joinDots_bytes (labels : list gostring) :
  Forall Label labels ->
  Forall (fun c => isLDH c \/ c = ".") (joinDots labels).
Proof.
  induction 1 as [|l labels (_ & Hl & _) _ IH]; [constructor|].
  assert (Hl' : Forall (fun c => isLDH c \/ c = ".") l)
    by (eapply Forall_impl; [exact Hl | now left]).
  destruct labels as [|l2 labels]; [exact Hl'|].
  change (joinDots (l :: l2 :: labels)) with (l ++ "." :: joinDots (l2 :: labels)).
  apply Forall_app. split; [exact Hl'|]. constructor; [now right | exact IH].
Qed.

Lemma optDot_bytes (present : bool) :
  Forall (fun c => isLDH c \/ c = ".") (optDot present).
Proof.
  destruct present; [|constructor].
  constructor; [now right | constructor].
Qed.

Lemma digits_bytes (ds : gostring) :
  Forall (fun c => net.isDigit c = true) ds ->
  Forall (fun c => isLDH c \/ c = ".") ds.
Proof.
  intros H. eapply Forall_impl; [exact H|]. intros c Hc. left. right. now left.
Qed.

(** X17: [validCookieDomain] accepts only non-empty texts made of
    letters, digits, hyphens and dots: no underscore, no colon, no
    space, no byte outside ASCII. *)
Theorem validCookieDomain_bytes (v : gostring) :
  validCookieDomain v = true ->
  v <> [] /\ Forall (fun c => isLDH c \/ c = ".") v.
Proof.
  unfold validCookieDomain.
  destruct (isCookieDomainName v) eqn:Hdn.
  - intros _. apply isCookieDomainName_grammar in Hdn
      as (_ & Hletter & lead & trail & labels & _ & Hlabels & ->).
    split.
    + intros E. rewrite E in Hletter. inversion Hletter.
    + apply Forall_app. split; [apply optDot_bytes|].
      apply Forall_app. split; [now apply joinDots_bytes | apply optDot_bytes].
  - case_bool_decide as Hip; [|discriminate]. simpl.
    destruct (strings.Contains v ":") eqn:Hc; [discriminate|]. intros _.
    destruct (proj1 (ParseIP_dotted v) (conj Hip Hc))
      as (a & b & c & d & (Ha & Da & _) & (_ & Db & _) & (_ & Dc & _)
          & (_ & Dd & _) & ->).
    split.
    + destruct a; [congruence | discriminate].
    + repeat (apply Forall_app; split; [now apply digits_bytes|];
              constructor; [now right|]).
      now apply digits_bytes.
Qed.

Lemma validCookieDomain_bytes_witness :
  str "www.example.com" <> [] /\
  Forall (fun c => isLDH c \/ c = ".") (str "www.example.com").
Proof. apply validCookieDomain_bytes. vm_compute. reflexivity. Defined.

(** X18: a leading dot does not matter to [isCookieDomainName]: a name
    of at most 254 bytes that does not itself start with a dot is
    accepted with a dot in front exactly when it is accepted without. *)
Theorem isCookieDomainName_leading_dot (s : gostring) :
  s <> [] -> List.hd "000" s <> "." -> length s < 255 ->
  isCookieDomainName ("." :: s) = isCookieDomainName s.
Proof.
  intros Hne Hhd Hlen. unfold isCookieDomainName.
  cbn [length hd drop]. rewrite Ascii.eqb_refl, drop_0.
  rewrite (proj2 (Ascii.eqb_neq _ _) Hhd).
  destruct s as [|c s]; [congruence|].
  cbn [length Nat.eqb] in *.
  replace (255 <? S (S (length s)))%nat with false
    by (symmetry; apply Nat.ltb_ge; lia).
  replace (255 <? S (length s))%nat with false
    by (symmetry; apply Nat.ltb_ge; lia).
  reflexivity.
Qed.

Lemma isCookieDomainName_leading_dot_witness :
  isCookieDomainName (str ".example.com") = isCookieDomainName (str "example.com").
Proof.
  apply (isCookieDomainName_leading_dot (str "example.com"));
    [discriminate | discriminate | simpl; lia].
Defined.

Lemma lowerByte_classes (c : ascii) :
  isLetter (lowerByte c) = isLetter c /\
  net.isDigit (lowerByte c) = net.isDigit c /\
  Ascii.eqb (lowerByte c) "-" = Ascii.eqb c "-" /\
  Ascii.eqb (lowerByte c) "." = Ascii.eqb c ".".
Proof. byte_cases c; repeat split. Qed.

Lemma dnStep_lower (st st' : dnState) (c : ascii) :
  dnSame st st' ->
  match dnStep st c, dnStep st' (lowerByte c) with
  | Some r, Some r' => dnSame r r'
  | None, None => True
  | _, _ => False
  end.
Proof.
  intros (Hok & Hlen & Hdot & Hhy).
  destruct (lowerByte_classes c) as (Hl & Hd & Hh & Hp).
  unfold dnStep. rewrite Hl, Hd, Hh, Hp, <- Hdot, <- Hhy, <- Hlen.
  destruct (isLetter c) eqn:El.
  { repeat split; simpl; congruence. }
  destruct (net.isDigit c) eqn:Ed.
  { repeat split; simpl; try congruence. }
  destruct (Ascii.eqb c "-") eqn:Ehy.
  { destruct (Ascii.eqb (dn_last st) "."); [exact I|].
    repeat split; simpl; congruence. }
  destruct (Ascii.eqb c ".") eqn:Edot; [|exact I].
  destruct (Ascii.eqb (dn_last st) "." || Ascii.eqb (dn_last st) "-"); [exact I|].
  destruct (Nat.ltb 63 (dn_partlen st) || Nat.eqb (dn_partlen st) 0); [exact I|].
  repeat split; simpl; congruence.
Qed.

Lemma dnLoop_lower (s : gostring) (st st' : dnState) :
  dnSame st st' ->
  match dnLoop st s, dnLoop st' (map lowerByte s) with
  | Some r, Some r' => dnSame r r'
  | None, None => True
  | _, _ => False
  end.
Proof.
  revert st st'. induction s as [|c s IH]; intros st st' Hsame; [exact Hsame|].
  cbn [map dnLoop]. pose proof (dnStep_lower st st' c Hsame) as Hstep.
  destruct (dnStep st c) as [r|], (dnStep st' (lowerByte c)) as [r'|];
    try contradiction; [now apply IH | exact I].
Qed.

(** X19: [isCookieDomainName] does not depend on the case of letters:
    a text and its ASCII lower-casing are accepted or refused together. *)
Theorem isCookieDomainName_case (v : gostring) :
  isCookieDomainName (map lowerByte v) = isCookieDomainName v.
Proof.
  unfold isCookieDomainName. rewrite length_map.
  destruct (Nat.eqb (length v) 0); [reflexivity|].
  destruct (Nat.ltb 255 (length v)); [reflexivity|].
  assert (Hhd : Ascii.eqb (List.hd "000" (map lowerByte v)) "."
                = Ascii.eqb (List.hd "000" v) ".").
  { destruct v as [|c v]; [reflexivity|]. simpl.
    now destruct (lowerByte_classes c) as (_ & _ & _ & ->). }
  rewrite Hhd.
  assert (Hs : (if Ascii.eqb (List.hd "000" v) "."
                then drop 1 (map lowerByte v) else map lowerByte v)
               = map lowerByte (if Ascii.eqb (List.hd "000" v) "."
                                then drop 1 v else v)).
  { destruct (Ascii.eqb (List.hd "000" v) "."); [|reflexivity].
    now destruct v. }
  rewrite Hs.
  pose proof (dnLoop_lower
                (if Ascii.eqb (List.hd "000" v) "." then drop 1 v else v)
                (mkDn "." false 0) (mkDn "." false 0)
                ltac:(repeat split)) as Hloop.
  destruct (dnLoop (mkDn "." false 0)
              (if Ascii.eqb (List.hd "000" v) "." then drop 1 v else v)) as [r|],
           (dnLoop (mkDn "." false 0)
              (map lowerByte
                 (if Ascii.eqb (List.hd "000" v) "." then drop 1 v else v))) as [r'|];
    try contradiction; [|reflexivity].
  destruct Hloop as (Hok & Hlen & _ & Hhy). now rewrite Hok, Hlen, Hhy.
Qed.

(** ** Several header lines and one *)

Lemma splitOn_nonempty (sep : ascii) (s : gostring) : splitOn sep s <> [].
Proof.
  destruct s as [|c s]; [discriminate|]. simpl.
  destruct (Ascii.eqb c sep); [discriminate|].
  destruct (splitOn sep s); discriminate.
Qed.

Lemma splitOn_app (sep : ascii) (a b : gostring) :
  splitOn sep (a ++ sep :: b) = splitOn sep a ++ splitOn sep b.
Proof.
  induction a as [|c a IH]; cbn [app splitOn].
  - now rewrite Ascii.eqb_refl.
  - rewrite IH. destruct (Ascii.eqb c sep); [reflexivity|].
    pose proof (splitOn_nonempty sep a).
    destruct (splitOn sep a); [congruence | reflexivity].
Qed.

Lemma splitOn_snoc (sep : ascii) (l : gostring) :
  exists init lst, splitOn sep l = init ++ [lst] /\
    forall c, c <> sep -> splitOn sep (l ++ [c]) = init ++ [lst ++ [c]].
Proof.
  induction l as [|x l (init & lst & Hl & Hc)].
  - exists [], []. split; [reflexivity|]. intros c Hne. simpl.
    now rewrite (proj2 (Ascii.eqb_neq _ _) Hne).
  - cbn [app splitOn]. destruct (Ascii.eqb x sep).
    + exists ([] :: init), lst. split; [now rewrite Hl|].
      intros c Hne. now rewrite (Hc c Hne).
    + rewrite Hl. destruct init as [|i0 init].
      * exists [], (x :: lst). split; [reflexivity|].
        intros c Hne. now rewrite (Hc c Hne).
      * exists ((x :: i0) :: init), lst. split; [reflexivity|].
        intros c Hne. now rewrite (Hc c Hne).
Qed.

Lemma space_not_semicolon (c : ascii) :
  textproto.isASCIISpace c = true -> c <> ";".
Proof. intros H ->. discriminate H. Qed.

Lemma trimRight_snoc (x : gostring) (c : ascii) :
  textproto.trimRight (x ++ [c]) =
    if textproto.isASCIISpace c then textproto.trimRight x else x ++ [c].
Proof.
  unfold textproto.trimRight. rewrite rev_app_distr. simpl.
  destruct (textproto.isASCIISpace c); [reflexivity|].
  simpl. now rewrite rev_involutive.
Qed.

Lemma trimLeft_snoc_space (x : gostring) (c : ascii) :
  textproto.isASCIISpace c = true ->
  textproto.trimLeft (x ++ [c]) =
    match textproto.trimLeft x with
    | [] => []
    | y => y ++ [c]
    end.
Proof.
  intros Hc. induction x as [|a x IH]; simpl.
  - now rewrite Hc.
  - destruct (textproto.isASCIISpace a); [exact IH | reflexivity].
Qed.

Lemma TrimString_cons_space (x : gostring) (c : ascii) :
  textproto.isASCIISpace c = true ->
  textproto.TrimString (c :: x) = textproto.TrimString x.
Proof. intros Hc. unfold textproto.TrimString. simpl. now rewrite Hc. Qed.

Lemma TrimString_snoc_space (x : gostring) (c : ascii) :
  textproto.isASCIISpace c = true ->
  textproto.TrimString (x ++ [c]) = textproto.TrimString x.
Proof.
  intros Hc. unfold textproto.TrimString.
  rewrite (trimLeft_snoc_space x c Hc).
  destruct (textproto.trimLeft x) as [|y ys]; [reflexivity|].
  now rewrite trimRight_snoc, Hc.
Qed.

Lemma readCookiePart_trimmed (filter p p' : gostring) :
  textproto.TrimString p = textproto.TrimString p' ->
  readCookiePart filter p = readCookiePart filter p'.
Proof. intros H. unfold readCookiePart. now rewrite H. Qed.

Lemma segments_trimLeft (filter l : gostring) :
  omap (readCookiePart filter) (splitOn ";" (textproto.trimLeft l)) =
  omap (readCookiePart filter) (splitOn ";" l).
Proof.
  induction l as [|c l IH]; [reflexivity|].
  cbn [textproto.trimLeft].
  destruct (textproto.isASCIISpace c) eqn:Hc; [|reflexivity].
  rewrite IH. cbn [splitOn].
  rewrite (proj2 (Ascii.eqb_neq _ _) (space_not_semicolon c Hc)).
  pose proof (splitOn_nonempty ";" l).
  destruct (splitOn ";" l) as [|seg segs]; [congruence|].
  change (omap (readCookiePart filter) (?a :: segs))
    with (match readCookiePart filter a with
          | Some y => y :: omap (readCookiePart filter) segs
          | None => omap (readCookiePart filter) segs
          end).
  now rewrite (readCookiePart_trimmed filter (c :: seg) seg
                 (TrimString_cons_space seg c Hc)).
Qed.

Lemma omap_snoc {A B} (f : A -> option B) (l : list A) (x : A) :
  omap f (l ++ [x]) = omap f l ++ match f x with Some y => [y] | None => [] end.
Proof.
  induction l as [|a l IH].
  - simpl. now destruct (f x).
  - change (omap f ((a :: l) ++ [x]))
      with (match f a with Some y => y :: omap f (l ++ [x])
                         | None => omap f (l ++ [x]) end).
    change (omap f (a :: l))
      with (match f a with Some y => y :: omap f l | None => omap f l end).
    rewrite IH. now destruct (f a).
Qed.

Lemma segments_trimRight (filter l : gostring) :
  omap (readCookiePart filter) (splitOn ";" (textproto.trimRight l)) =
  omap (readCookiePart filter) (splitOn ";" l).
Proof.
  induction l as [|c l IH] using rev_ind; [reflexivity|].
  rewrite trimRight_snoc.
  destruct (textproto.isASCIISpace c) eqn:Hc; [|reflexivity].
  rewrite IH.
  destruct (splitOn_snoc ";" l) as (init & lst & Hl & Hsnoc).
  rewrite (Hsnoc c (space_not_semicolon c Hc)), Hl, !omap_snoc.
  now rewrite (readCookiePart_trimmed filter (lst ++ [c]) lst
                 (TrimString_snoc_space lst c Hc)).
Qed.

Lemma cookiesOfLine_untrimmed (filter l : gostring) :
  cookiesOfLine filter l = omap (readCookiePart filter) (splitOn ";" l).
Proof.
  unfold cookiesOfLine, segments, textproto.TrimString.
  now rewrite segments_trimRight, segments_trimLeft.
Qed.

Lemma omap_app_list {A B} (f : A -> option B) (l k : list A) :
  omap f (l ++ k) = omap f l ++ omap f k.
Proof.
  induction l as [|a l IH]; [reflexivity|].
  change (omap f ((a :: l) ++ k))
    with (match f a with Some y => y :: omap f (l ++ k)
                       | None => omap f (l ++ k) end).
  change (omap f (a :: l))
    with (match f a with Some y => y :: omap f l | None => omap f l end).
  rewrite IH. now destruct (f a).
Qed.

Lemma cookiesOfLine_join (filter l rest : gostring) :
  cookiesOfLine filter (l ++ ";" :: rest) =
    cookiesOfLine filter l ++ cookiesOfLine filter rest.
Proof.
  rewrite !cookiesOfLine_untrimmed, splitOn_app. apply omap_app_list.
Qed.

Lemma cookiesOfLine_joinSemicolons (filter : gostring) (lines : list gostring) :
  lines <> [] ->
  cookiesOfLine filter (joinSemicolons lines) = cookiesOfLines filter lines.
Proof.
  unfold cookiesOfLines.
  induction lines as [|l lines IH]; [congruence|]. intros _.
  destruct lines as [|l2 lines].
  - simpl. now rewrite app_nil_r.
  - change (joinSemicolons (l :: l2 :: lines))
      with (l ++ ";" :: joinSemicolons (l2 :: lines)).
    rewrite cookiesOfLine_join, IH by discriminate. reflexivity.
Qed.

Lemma header_get_cookieHeader (lines : list gostring) :
  header_get (cookieHeader lines) "Cookie" = lines.
Proof. unfold header_get, cookieHeader. now rewrite lookup_singleton_eq. Qed.

(** X20: several "Cookie" header lines are read as the single line that
    joins them with ';': the same cookies, in the same order. *)
Theorem readCookies_joined_lines (lines : list gostring) (filter : gostring) :
  lines <> [] ->
  readCookies (cookieHeader [joinSemicolons lines]) filter =
  readCookies (cookieHeader lines) filter.
Proof.
  intros Hne. rewrite !readCookies_segments, !header_get_cookieHeader.
  do 2 f_equal. unfold cookiesOfLines at 1. simpl. rewrite app_nil_r.
  now apply cookiesOfLine_joinSemicolons.
Qed.

Lemma readCookies_joined_lines_witness :
  readCookies (cookieHeader [str "a=1; b=2;c=3"]) [] =
  readCookies (cookieHeader [str "a=1; b=2"; str "c=3"]) [].
Proof.
  apply (readCookies_joined_lines [str "a=1; b=2"; str "c=3"]). discriminate.
Defined.

Lemma segments_cons_space (filter l : gostring) (c : ascii) :
  textproto.isASCIISpace c = true ->
  omap (readCookiePart filter) (splitOn ";" (c :: l)) =
  omap (readCookiePart filter) (splitOn ";" l).
Proof.
  intros Hc. rewrite <- (segments_trimLeft filter (c :: l)).
  cbn [textproto.trimLeft]. rewrite Hc. apply segments_trimLeft.
Qed.

Lemma segments_snoc_space (filter l : gostring) (c : ascii) :
  textproto.isASCIISpace c = true ->
  omap (readCookiePart filter) (splitOn ";" (l ++ [c])) =
  omap (readCookiePart filter) (splitOn ";" l).
Proof.
  intros Hc. rewrite <- (segments_trimRight filter (l ++ [c])).
  rewrite trimRight_snoc, Hc. apply segments_trimRight.
Qed.

(** X21: white space (space, tab, CR, LF) before and after a header
    line does not matter to [readCookies]. *)
Theorem readCookies_padding (before after line filter : gostring) :
  forallb textproto.isASCIISpace before = true ->
  forallb textproto.isASCIISpace after = true ->
  readCookies (cookieHeader [before ++ line ++ after]) filter =
  readCookies (cookieHeader [line]) filter.
Proof.
  intros Hb Ha. rewrite !readCookies_segments, !header_get_cookieHeader.
  do 2 f_equal. unfold cookiesOfLines. simpl. f_equal.
  rewrite !cookiesOfLine_untrimmed.
  induction before as [|c before IH].
  - simpl. clear Hb.
    induction after as [|c after IH] using rev_ind; [now rewrite app_nil_r|].
    rewrite forallb_app in Ha. apply andb_true_iff in Ha as [Ha Hc].
    simpl in Hc. rewrite andb_true_r in Hc.
    rewrite app_assoc, (segments_snoc_space _ _ _ Hc). now apply IH.
  - simpl in Hb. apply andb_true_iff in Hb as [Hc Hb].
    cbn [app]. rewrite (segments_cons_space _ _ _ Hc). now apply IH.
Qed.

Lemma readCookies_padding_witness :
  readCookies (cookieHeader [[" "; TAB] ++ str "a=1; b=2" ++ [" "; CR; LF]]) [] =
  readCookies (cookieHeader [str "a=1; b=2"]) [].
Proof. apply readCookies_padding; reflexivity. Defined.
